(** * Hierarch role manager: qualification and grace-period engine

    A shallow embedding of the two revisions of the role manager:

    - the current engine (three tiers, [determineQualified], roles really
      granted and revoked, [GRACE_PERIOD_WEEKS = 2]);
    - [role-manager.js] (the earlier dry-run revision: two input lists, the
      [protectedSkipped] log list, [GRACE_PERIOD_WEEKS = 4]), in module
      [Legacy].

    Discord snowflakes are strings, mention counts and week counters are
    natural numbers, the grace file is a finite map from user id to record,
    and every awaited Discord call that can reject is an input of the model
    (a [Guild] field telling whether the call resolves). *)

From stdpp Require Import gmap strings list fin_maps sorting.

Open Scope string_scope.
Open Scope list_scope.
Open Scope nat_scope.

(** ** Data model *)

Abbreviation UserId := string (only parsing).
Abbreviation RoleId := string (only parsing).

(** A guild member as the code reads it: [member.nickname],
    [member.user.username] and the ids of [member.roles.cache]. *)
Record Member := {
  nickname : option string;
  user_username : string;
  roles_cache : list RoleId
}.

(** [member.nickname || member.user.username]: a null or empty nickname is
    falsy. *)
Definition displayName (m : Member) : string :=
  match nickname m with
  | Some n => if decide (n = EmptyString) then user_username m else n
  | None => user_username m
  end.

(** [member.roles.cache.has(id)] *)
Definition roles_has (m : Member) (id : RoleId) : Prop := id ∈ roles_cache m.

(** [member.roles.cache.some(role => ids.includes(role.id))] *)
Definition roles_some (m : Member) (ids : list RoleId) : Prop :=
  Exists (λ r, r ∈ ids) (roles_cache m).

#[global] Instance roles_has_dec m id : Decision (roles_has m id).
Proof. unfold roles_has. apply _. Defined.

#[global] Instance roles_some_dec m ids : Decision (roles_some m ids).
Proof. unfold roles_some. apply _. Defined.

(** The object pushed by [categorizeMembers] (and by the legacy filters). *)
Record UserData := {
  userId : UserId;
  username : string;
  mentionCount : nat;
  member : Member
}.

(** One value of [grace-tracking.json]. *)
Record GraceRecord := {
  g_username : string;
  weeksOut : nat;
  firstWeekOut : string
}.

(** What the code sees of the guild.  A field of type [option] or [bool]
    records whether the awaited call resolves:
    - [members_fetch id] is [None] when [guild.members.fetch(id)] rejects;
    - [roles_fetch_hierarch] is [None] when
      [guild.roles.fetch(HIERARCH_ROLE_ID)] yields null, and otherwise the
      keys of [hierarchRole.members] in iteration order;
    - [roles_add id] / [roles_remove id] tell whether
      [member.roles.add] / [member.roles.remove] resolves for that member. *)
Record Guild := {
  members_fetch : UserId → option Member;
  roles_fetch_hierarch : option (list UserId);
  roles_add : UserId → bool;
  roles_remove : UserId → bool
}.

(** Entries of the log lists. *)
Module Rank.
Record t := { rank : nat; username : string; userId : UserId; mentions : nat }.
End Rank.

Module Mention.
Record t := { username : string; userId : UserId; mentions : nat }.
End Mention.

Module Removed.
Record t := {
  username : string;
  userId : UserId;
  reason : string;
  weeksOut : option nat
}.
End Removed.

Module GraceUser.
Record t := {
  username : string;
  userId : UserId;
  weeksOut : nat;
  weeksRemaining : nat
}.
End GraceUser.

Module Skipped.
Record t := { username : string; userId : UserId }.
End Skipped.

(** ** Ranking and threshold *)

Definition TOP_COUNT : nat := 30.

(** [arr.sort((a, b) => b.mentionCount - a.mentionCount)]: a stable sort,
    descending by mention count. *)
Fixpoint insert_desc (x : UserData) (l : list UserData) : list UserData :=
  match l with
  | [] => [x]
  | y :: l' =>
      if decide (mentionCount y ≤ mentionCount x) then x :: y :: l'
      else y :: insert_desc x l'
  end.

Fixpoint sort_desc (l : list UserData) : list UserData :=
  match l with
  | [] => []
  | x :: l' => insert_desc x (sort_desc l')
  end.

Record Categorized := {
  regularMembers : list UserData;
  specialMembers : list UserData;
  protectedMembers : list UserData
}.

Record QualificationResult := {
  top30Regular : list UserData;
  qualifiedSpecial : list UserData;
  qualifiedProtected : list UserData;
  threshold : nat
}.

(** [determineQualified]; the [None] branch of the inner match is the read of
    an index past the end, which the length test excludes. *)
Definition determineQualified
    (regularMembers specialMembers protectedMembers : list UserData)
    : QualificationResult :=
  let top30Regular := take TOP_COUNT regularMembers in
  let threshold :=
    if decide (0 < length top30Regular) then
      match top30Regular !! (length top30Regular - 1) with
      | Some u => mentionCount u
      | None => 0
      end
    else 0 in
  {| top30Regular := top30Regular;
     qualifiedSpecial := filter (λ m, threshold < mentionCount m) specialMembers;
     qualifiedProtected := protectedMembers;
     threshold := threshold |}.

(** ** The pass over the holders of the Hierarch role

    Both revisions run the same loop over [hierarchRole.members]; they differ
    in the grace length, in the reason given for an immediate removal, in
    whether a role is really revoked ([removeRole]: the awaited
    [member.roles.remove], which can reject; the legacy revision has the call
    commented out) and in what they do with a skipped protected user (the
    legacy revision pushes it on [logData.protectedSkipped], the current one
    only prints it: [protectedSkipped] is then the list of printed users). *)

Record HolderState := {
  graceTracking : gmap string GraceRecord;
  rolesRemoved : list Removed.t;
  graceUsers : list GraceUser.t;
  protectedSkipped : list Skipped.t
}.

Section HolderPass.
Variable PROTECTED_ROLES_IDS : list RoleId.
Variable GRACE_PERIOD_WEEKS : nat.
Variable immediateReason : string.
Variable fetch : UserId → option Member.
Variable removeRole : UserId → bool.
Variable qualifiedUserIds : gset string.
Variable timestamp : string.

(** The body of [for (const [memberId] of hierarchRole.members)].  A
    rejected [fetch] or [removeRole] lands in the [catch], which only
    prints: whatever was assigned before the rejection stays.  Both
    subtractions for [weeksRemaining] are taken where the grace length is
    the larger side. *)
Definition handleHolder (st : HolderState) (memberId : UserId) : HolderState :=
  if decide (memberId ∈ qualifiedUserIds) then st else
  match fetch memberId with
  | None => st
  | Some member =>
    let username := displayName member in
    if decide (roles_some member PROTECTED_ROLES_IDS) then
      {| graceTracking := graceTracking st;
         rolesRemoved := rolesRemoved st;
         graceUsers := graceUsers st;
         protectedSkipped :=
           protectedSkipped st ++
           [ {| Skipped.username := username; Skipped.userId := memberId |} ] |}
    else if decide (0 < GRACE_PERIOD_WEEKS) then
      match graceTracking st !! memberId with
      | None =>
        {| graceTracking :=
             <[memberId := {| g_username := username; weeksOut := 1;
                              firstWeekOut := timestamp |}]> (graceTracking st);
           rolesRemoved := rolesRemoved st;
           graceUsers :=
             graceUsers st ++
             [ {| GraceUser.username := username; GraceUser.userId := memberId;
                  GraceUser.weeksOut := 1;
                  GraceUser.weeksRemaining := GRACE_PERIOD_WEEKS - 1 |} ];
           protectedSkipped := protectedSkipped st |}
      | Some r =>
        let weeksOut' := weeksOut r + 1 in
        let bumped :=
          <[memberId := {| g_username := g_username r; weeksOut := weeksOut';
                           firstWeekOut := firstWeekOut r |}]> (graceTracking st) in
        if decide (GRACE_PERIOD_WEEKS < weeksOut') then
          if removeRole memberId then
            {| graceTracking := delete memberId bumped;
               rolesRemoved :=
                 rolesRemoved st ++
                 [ {| Removed.username := username; Removed.userId := memberId;
                      Removed.reason := "Grace period expired";
                      Removed.weeksOut := Some weeksOut' |} ];
               graceUsers := graceUsers st;
               protectedSkipped := protectedSkipped st |}
          else
            {| graceTracking := bumped;
               rolesRemoved := rolesRemoved st;
               graceUsers := graceUsers st;
               protectedSkipped := protectedSkipped st |}
        else
          {| graceTracking := bumped;
             rolesRemoved := rolesRemoved st;
             graceUsers :=
               graceUsers st ++
               [ {| GraceUser.username := username; GraceUser.userId := memberId;
                    GraceUser.weeksOut := weeksOut';
                    GraceUser.weeksRemaining := GRACE_PERIOD_WEEKS - weeksOut' |} ];
             protectedSkipped := protectedSkipped st |}
      end
    else if removeRole memberId then
      {| graceTracking := graceTracking st;
         rolesRemoved :=
           rolesRemoved st ++
           [ {| Removed.username := username; Removed.userId := memberId;
                Removed.reason := immediateReason;
                Removed.weeksOut := None |} ];
         graceUsers := graceUsers st;
         protectedSkipped := protectedSkipped st |}
    else st
  end.

Definition holderPass (members : list UserId) (st : HolderState) : HolderState :=
  foldl handleHolder st members.
End HolderPass.

(** [if (graceTracking[id]) delete graceTracking[id]] *)
Definition clearGrace (id : UserId) (graceTracking : gmap string GraceRecord)
    : gmap string GraceRecord :=
  match graceTracking !! id with
  | Some _ => delete id graceTracking
  | None => graceTracking
  end.

Definition mentionOf (user : UserData) : Mention.t :=
  {| Mention.username := username user; Mention.userId := userId user;
     Mention.mentions := mentionCount user |}.

(** ** The current engine *)

Module LogData.
Record t := {
  timestamp : string;
  top30 : list Rank.t;
  specialRoles : list Mention.t;
  protected : list Mention.t;
  rolesAdded : list Mention.t;
  rolesRemoved : list Removed.t;
  graceUsers : list GraceUser.t
}.
End LogData.

(** How a call of [manageRoles] ends:
    - [Completed logData graceFile]: it returns [logData], having written
      [graceFile] to [GRACE_FILE];
    - [RoleNotFound]: the early [return] (of undefined), nothing written;
    - [AddRejected granted]: an awaited [roles.add] rejected and the
      exception leaves the function, nothing written; [granted] are the
      users whose role was added before. *)
Inductive Outcome :=
| Completed (logData : LogData.t) (graceFile : gmap string GraceRecord)
| RoleNotFound
| AddRejected (granted : list UserId).

Inductive RoleChange :=
| Grant (id : UserId)
| Revoke (id : UserId).

(** What one firing of the [ready] handler leaves behind. *)
Record Report := {
  exitCode : nat;
  successLogged : bool;
  graceFileAfter : gmap string GraceRecord;
  roleChanges : list RoleChange
}.

Definition GRACE_PERIOD_WEEKS : nat := 2.

Section Engine.
Variables HIERARCH_ROLE_ID MEMBER_ROLE_ID : RoleId.
Variables PROTECTED_ROLES_IDS SPECIAL_ROLES_IDS : list RoleId.

(** The loop of [categorizeMembers] over [mentionCount.entries()], before
    the two sorts. *)
Fixpoint categorizeLoop (guild : Guild) (entries : list (UserId * nat))
    (acc : Categorized) : Categorized :=
  match entries with
  | [] => acc
  | (userId, count) :: rest =>
    match members_fetch guild userId with
    | None => categorizeLoop guild rest acc
    | Some member =>
      if decide (roles_has member MEMBER_ROLE_ID) then
        let userData :=
          {| userId := userId; username := displayName member;
             mentionCount := count; member := member |} in
        if decide (roles_some member PROTECTED_ROLES_IDS) then
          categorizeLoop guild rest
            {| regularMembers := regularMembers acc;
               specialMembers := specialMembers acc;
               protectedMembers := protectedMembers acc ++ [userData] |}
        else if decide (roles_some member SPECIAL_ROLES_IDS) then
          categorizeLoop guild rest
            {| regularMembers := regularMembers acc;
               specialMembers := specialMembers acc ++ [userData];
               protectedMembers := protectedMembers acc |}
        else
          categorizeLoop guild rest
            {| regularMembers := regularMembers acc ++ [userData];
               specialMembers := specialMembers acc;
               protectedMembers := protectedMembers acc |}
      else categorizeLoop guild rest acc
    end
  end.

Definition categorizeMembers (guild : Guild) (mentionCount : list (UserId * nat))
    : Categorized :=
  let c := categorizeLoop guild mentionCount
             {| regularMembers := []; specialMembers := [];
                protectedMembers := [] |} in
  {| regularMembers := sort_desc (regularMembers c);
     specialMembers := sort_desc (specialMembers c);
     protectedMembers := protectedMembers c |}.

(** [for (const user of allQualified)]: [inr] when an awaited [roles.add]
    rejects, carrying what had been pushed on [rolesAdded] so far. *)
Fixpoint grantPass (guild : Guild) (users : list UserData)
    (graceTracking : gmap string GraceRecord) (rolesAdded : list Mention.t)
    : gmap string GraceRecord * list Mention.t + list Mention.t :=
  match users with
  | [] => inl (graceTracking, rolesAdded)
  | user :: rest =>
    let graceTracking := clearGrace (userId user) graceTracking in
    if decide (roles_has (member user) HIERARCH_ROLE_ID) then
      grantPass guild rest graceTracking rolesAdded
    else if roles_add guild (userId user) then
      grantPass guild rest graceTracking (rolesAdded ++ [mentionOf user])
    else inr rolesAdded
  end.

Definition allQualified (qualified : QualificationResult) : list UserData :=
  top30Regular qualified ++ qualifiedSpecial qualified ++ qualifiedProtected qualified.

(** The set built by the three [forEach(u => qualifiedUserIds.add(u.userId))]. *)
Definition qualifiedUserIds (qualified : QualificationResult) : gset string :=
  list_to_set (userId <$> allQualified qualified).

(** [manageRoles], with the grace length as an argument. [graceFile] is the
    parsed content of [GRACE_FILE] (empty when the file does not exist). *)
Definition manageRolesWith (G : nat) (guild : Guild)
    (qualified : QualificationResult) (timestamp : string)
    (graceFile : gmap string GraceRecord) : Outcome :=
  match roles_fetch_hierarch guild with
  | None => RoleNotFound
  | Some members =>
    match grantPass guild (allQualified qualified) graceFile [] with
    | inr rolesAdded => AddRejected (Mention.userId <$> rolesAdded)
    | inl (tracking, rolesAdded) =>
      let st :=
        holderPass PROTECTED_ROLES_IDS G "Not qualified"
          (members_fetch guild) (roles_remove guild)
          (qualifiedUserIds qualified) timestamp members
          {| graceTracking := tracking; rolesRemoved := [];
             graceUsers := []; protectedSkipped := [] |} in
      Completed
        {| LogData.timestamp := timestamp;
           LogData.top30 :=
             imap (λ i user,
                     {| Rank.rank := i + 1; Rank.username := username user;
                        Rank.userId := userId user;
                        Rank.mentions := mentionCount user |})
                  (top30Regular qualified);
           LogData.specialRoles := mentionOf <$> qualifiedSpecial qualified;
           LogData.protected := mentionOf <$> qualifiedProtected qualified;
           LogData.rolesAdded := rolesAdded;
           LogData.rolesRemoved := rolesRemoved st;
           LogData.graceUsers := graceUsers st |}
        (graceTracking st)
    end
  end.

Definition manageRoles := manageRolesWith GRACE_PERIOD_WEEKS.

(** The users the pass over the holders skipped as protected (printed, not
    logged, by the current engine). *)
Definition skippedProtected (G : nat) (guild : Guild)
    (qualified : QualificationResult) (timestamp : string)
    (graceFile : gmap string GraceRecord) : list Skipped.t :=
  match roles_fetch_hierarch guild,
        grantPass guild (allQualified qualified) graceFile [] with
  | Some members, inl (tracking, _) =>
    protectedSkipped
      (holderPass PROTECTED_ROLES_IDS G "Not qualified"
         (members_fetch guild) (roles_remove guild)
         (qualifiedUserIds qualified) timestamp members
         {| graceTracking := tracking; rolesRemoved := [];
            graceUsers := []; protectedSkipped := [] |})
  | _, _ => []
  end.

(** The [ready] handler from step 2 on, given the mention counts of step 1.
    [sendSummaryToDiscord] catches whatever it raises (also the read of a
    field of the undefined [logData]), so after any return of
    [manageRoles] the handler prints the success line and exits with 0;
    an exception out of [manageRoles] reaches the [catch] and exits
    with 1. *)
Definition ready (guild : Guild) (mentionCount : list (UserId * nat))
    (timestamp : string) (graceFile : gmap string GraceRecord) : Report :=
  let c := categorizeMembers guild mentionCount in
  let qualified :=
    determineQualified (regularMembers c) (specialMembers c) (protectedMembers c) in
  match manageRoles guild qualified timestamp graceFile with
  | Completed logData graceFile' =>
    {| exitCode := 0; successLogged := true; graceFileAfter := graceFile';
       roleChanges :=
         (Grant <$> (Mention.userId <$> LogData.rolesAdded logData)) ++
         (Revoke <$> (Removed.userId <$> LogData.rolesRemoved logData)) |}
  | RoleNotFound =>
    {| exitCode := 0; successLogged := true; graceFileAfter := graceFile;
       roleChanges := [] |}
  | AddRejected granted =>
    {| exitCode := 1; successLogged := false; graceFileAfter := graceFile;
       roleChanges := Grant <$> granted |}
  end.

(** Consecutive runs: each run reads the grace file the previous one left
    (a run that does not complete leaves it as it was). *)
Record Run := {
  run_guild : Guild;
  run_qualified : QualificationResult;
  run_timestamp : string
}.

Definition graceFileOf (o : Outcome) (before : gmap string GraceRecord)
    : gmap string GraceRecord :=
  match o with
  | Completed _ graceFile => graceFile
  | _ => before
  end.

Fixpoint manageRolesSeq (G : nat) (runs : list Run)
    (graceFile : gmap string GraceRecord)
    : list Outcome * gmap string GraceRecord :=
  match runs with
  | [] => ([], graceFile)
  | r :: rest =>
    let o := manageRolesWith G (run_guild r) (run_qualified r)
               (run_timestamp r) graceFile in
    let (os, final) := manageRolesSeq G rest (graceFileOf o graceFile) in
    (o :: os, final)
  end.
End Engine.

(** ** The legacy revision, [role-manager.js] *)

Module Legacy.
Definition HIERARCH_ROLE_ID : RoleId := "1449883199722229890".
Definition PROTECTED_ROLES_IDS : list RoleId := ["1247895646929817730"].
Definition GRACE_PERIOD_WEEKS : nat := 4.

Module LogData.
Record t := {
  timestamp : string;
  top30 : list Rank.t;
  specialRoles : list Mention.t;
  rolesAdded : list Mention.t;
  rolesRemoved : list Removed.t;
  graceUsers : list GraceUser.t;
  protectedSkipped : list Skipped.t
}.
End LogData.

(** [for (const user of top30Regular)]: the call of [roles.add] is
    commented out, the push on [rolesAdded] is not. *)
Fixpoint top30Pass (users : list UserData)
    (graceTracking : gmap string GraceRecord) (rolesAdded : list Mention.t)
    : gmap string GraceRecord * list Mention.t :=
  match users with
  | [] => (graceTracking, rolesAdded)
  | user :: rest =>
    let graceTracking := clearGrace (userId user) graceTracking in
    if decide (roles_has (member user) HIERARCH_ROLE_ID) then
      top30Pass rest graceTracking rolesAdded
    else top30Pass rest graceTracking (rolesAdded ++ [mentionOf user])
  end.

(** [for (const user of activeSpecialRoles)] *)
Definition specialPass (users : list UserData)
    (graceTracking : gmap string GraceRecord) : gmap string GraceRecord :=
  foldl (λ tracking user, clearGrace (userId user) tracking) graceTracking users.

Definition activeUsers (top30Regular activeSpecialRoles : list UserData)
    : gset string :=
  list_to_set (userId <$> (top30Regular ++ activeSpecialRoles)).

(** [manageRoles], with the grace length as an argument: [None] is the
    early return when the role is not found (nothing written), [Some] the
    log and the grace file it writes.  No Discord call changes a role in
    this revision, so nothing can reject in the pass over the holders
    but the fetch of the member. *)
Definition manageRolesWith (G : nat) (guild : Guild)
    (top30Regular activeSpecialRoles : list UserData) (timestamp : string)
    (graceFile : gmap string GraceRecord)
    : option (LogData.t * gmap string GraceRecord) :=
  match roles_fetch_hierarch guild with
  | None => None
  | Some members =>
    let (tracking, rolesAdded) := top30Pass top30Regular graceFile [] in
    let tracking := specialPass activeSpecialRoles tracking in
    let st :=
      holderPass PROTECTED_ROLES_IDS G "Not in top 30"
        (members_fetch guild) (λ _, true)
        (activeUsers top30Regular activeSpecialRoles) timestamp members
        {| graceTracking := tracking; rolesRemoved := [];
           graceUsers := []; protectedSkipped := [] |} in
    Some
      ({| LogData.timestamp := timestamp;
          LogData.top30 :=
            imap (λ i user,
                    {| Rank.rank := i + 1; Rank.username := username user;
                       Rank.userId := userId user;
                       Rank.mentions := mentionCount user |})
                 top30Regular;
          LogData.specialRoles := mentionOf <$> activeSpecialRoles;
          LogData.rolesAdded := rolesAdded;
          LogData.rolesRemoved := rolesRemoved st;
          LogData.graceUsers := graceUsers st;
          LogData.protectedSkipped := protectedSkipped st |},
       graceTracking st)
  end.

Definition manageRoles := manageRolesWith GRACE_PERIOD_WEEKS.

Fixpoint manageRolesSeq (G : nat)
    (runs : list (Guild * list UserData * list UserData * string))
    (graceFile : gmap string GraceRecord) : gmap string GraceRecord :=
  match runs with
  | [] => graceFile
  | (guild, top30Regular, activeSpecialRoles, timestamp) :: rest =>
    match manageRolesWith G guild top30Regular activeSpecialRoles
            timestamp graceFile with
    | Some (_, graceFile') => manageRolesSeq G rest graceFile'
    | None => manageRolesSeq G rest graceFile
    end
  end.
End Legacy.

(** ** Scanning the channels

    [scanChannelsForMentions] reads each channel page by page.  What the
    calls return is an input: a channel is [None] when
    [guild.channels.fetch] yields null or a channel that is not text based,
    and otherwise the pages [channel.messages.fetch] serves in turn (after
    the last one it serves an empty page).  The two tests of
    [Date.now() - createdTimestamp > TWO_MONTHS_MS] are inputs too:
    [expired] is the verdict on a message when the inner loop reaches it,
    [lastExpired] the verdict on the last message of a page after that
    loop.  The ids of [message.mentions.users] are the keys of a Collection. *)

Record Message := {
  mentions : list UserId;
  expired : bool
}.

Record Page := {
  messages : list Message;
  lastExpired : bool
}.

(** [mentionCount.set(id, (mentionCount.get(id) || 0) + 1)] on a Map kept as
    the list of its entries in insertion order. *)
Fixpoint bump (id : UserId) (mentionCount : list (UserId * nat))
    : list (UserId * nat) :=
  match mentionCount with
  | [] => [(id, 1)]
  | (k, c) :: rest =>
    if decide (k = id) then (k, c + 1) :: rest else (k, c) :: bump id rest
  end.

(** [for (const message of messages.values())], with its [break]. *)
Fixpoint scanMessages (msgs : list Message) (mentionCount : list (UserId * nat))
    : list (UserId * nat) :=
  match msgs with
  | [] => mentionCount
  | message :: rest =>
    if expired message then mentionCount
    else scanMessages rest (foldl (λ acc id, bump id acc) mentionCount (mentions message))
  end.

(** The [while (true)] of one channel: it stops at an empty page, or after
    a page whose last message is too old. *)
Fixpoint scanPages (pages : list Page) (mentionCount : list (UserId * nat))
    : list (UserId * nat) :=
  match pages with
  | [] => mentionCount
  | page :: rest =>
    match messages page with
    | [] => mentionCount
    | _ :: _ =>
      let mentionCount := scanMessages (messages page) mentionCount in
      if lastExpired page then mentionCount else scanPages rest mentionCount
    end
  end.

Definition scanChannelsForMentions (channels : list (option (list Page)))
    : list (UserId * nat) :=
  foldl (λ mentionCount channel,
           match channel with
           | None => mentionCount
           | Some pages => scanPages pages mentionCount
           end)
        [] channels.

(** The messages of the found channels that are not too old when the inner
    loop looks at them. *)
Definition freshMessages (channels : list (option (list Page))) : list Message :=
  filter (λ message, expired message = false)
    (concat (messages <$> concat (omap id channels))).

(** How often [id] occurs in a list of ids, and the count a Map kept as a
    list of entries holds for [id] (0 when it has no entry). *)
Definition occurrences (id : UserId) (ids : list UserId) : nat :=
  length (filter (λ x, x = id) ids).

Definition countOf (id : UserId) (mentionCount : list (UserId * nat)) : nat :=
  sum_list (snd <$> filter (λ e, e.1 = id) mentionCount).

(** No page is empty, no message is too old. *)
Definition allFresh (channels : list (option (list Page))) : Prop :=
  Forall (λ page, messages page ≠ [] ∧ lastExpired page = false ∧
                  Forall (λ message, expired message = false) (messages page))
         (concat (omap id channels)).

(** ** The rest of the legacy handler *)

Module LegacyHandler.
Definition MEMBER_ROLE_ID : RoleId := "1338515855709044757".
Definition SPECIAL_ROLES_IDS : list RoleId :=
  ["1265029315532161176"; "1247902423453007934"; "1247902000847523912";
   "1336680493252481037"].
Definition TOP_COUNT : nat := 30.

(** The loop of [filterEligibleUsers], before the sort. *)
Fixpoint eligibleLoop (guild : Guild) (entries : list (UserId * nat))
    (eligible : list UserData) : list UserData :=
  match entries with
  | [] => eligible
  | (userId, count) :: rest =>
    match members_fetch guild userId with
    | None => eligibleLoop guild rest eligible
    | Some member =>
      if decide (roles_has member MEMBER_ROLE_ID) then
        if decide (Exists (λ r, r ∈ SPECIAL_ROLES_IDS ∨ r ∈ Legacy.PROTECTED_ROLES_IDS)
                          (roles_cache member)) then
          eligibleLoop guild rest eligible
        else
          eligibleLoop guild rest
            (eligible ++
             [ {| userId := userId; username := displayName member;
                  mentionCount := count; member := member |} ])
      else eligibleLoop guild rest eligible
    end
  end.

Definition filterEligibleUsers (guild : Guild) (mentionCount : list (UserId * nat))
    : list UserData :=
  sort_desc (eligibleLoop guild mentionCount []).

(** [getActiveSpecialRoles]: no test of the Member role, no sort. *)
Fixpoint getActiveSpecialRolesFrom (guild : Guild) (entries : list (UserId * nat))
    (activeSpecial : list UserData) : list UserData :=
  match entries with
  | [] => activeSpecial
  | (userId, count) :: rest =>
    match members_fetch guild userId with
    | None => getActiveSpecialRolesFrom guild rest activeSpecial
    | Some member =>
      if decide (roles_some member SPECIAL_ROLES_IDS) then
        getActiveSpecialRolesFrom guild rest
          (activeSpecial ++
           [ {| userId := userId; username := displayName member;
                mentionCount := count; member := member |} ])
      else getActiveSpecialRolesFrom guild rest activeSpecial
    end
  end.

Definition getActiveSpecialRoles (guild : Guild) (mentionCount : list (UserId * nat))
    : list UserData :=
  getActiveSpecialRolesFrom guild mentionCount [].

(** Steps 2 to 4 of the [ready] handler: what [manageRoles] is called on. *)
Definition manageRolesOfMentions (guild : Guild) (mentionCount : list (UserId * nat))
    (timestamp : string) (graceFile : gmap string GraceRecord)
    : option (Legacy.LogData.t * gmap string GraceRecord) :=
  let eligibleUsers := filterEligibleUsers guild mentionCount in
  let top30Regular := take TOP_COUNT eligibleUsers in
  let activeSpecialRoles := getActiveSpecialRoles guild mentionCount in
  Legacy.manageRoles guild top30Regular activeSpecialRoles timestamp graceFile.

(** The number on the [TOTAL WITH HIERARCH] line of the summary. *)
Definition totalWithHierarch (logData : Legacy.LogData.t) : nat :=
  length (Legacy.LogData.top30 logData) +
  length (Legacy.LogData.specialRoles logData) +
  length (Legacy.LogData.protectedSkipped logData) +
  length (Legacy.LogData.graceUsers logData).
End LegacyHandler.

(** ** The summary of the current engine *)

(** The number on the [TOTAL WITH HIERARCH] line of the summary. *)
Definition totalWithHierarch (logData : LogData.t) : nat :=
  length (LogData.top30 logData) + length (LogData.specialRoles logData) +
  length (LogData.protected logData) + length (LogData.graceUsers logData).

(** ** Notions used in the statements *)

(** The object [categorizeMembers] builds for a Map entry, when the member
    is fetched and has the Member role. *)
Definition userDataOf (MEMBER_ROLE_ID : RoleId) (guild : Guild)
    (entry : UserId * nat) : option UserData :=
  match members_fetch guild entry.1 with
  | Some member =>
    if decide (roles_has member MEMBER_ROLE_ID) then
      Some {| userId := entry.1; username := displayName member;
              mentionCount := entry.2; member := member |}
    else None
  | None => None
  end.

(** The object built for a Map entry whose member is fetched, whatever its
    roles. *)
Definition builtFor (guild : Guild) (entry : UserId * nat) : option UserData :=
  match members_fetch guild entry.1 with
  | Some member =>
    Some {| userId := entry.1; username := displayName member;
            mentionCount := entry.2; member := member |}
  | None => None
  end.

(** The ids of the users a log of the current engine counts on its
    [TOTAL WITH HIERARCH] line. *)
Definition countedIds (logData : LogData.t) : list UserId :=
  (Rank.userId <$> LogData.top30 logData) ++
  (Mention.userId <$> LogData.specialRoles logData) ++
  (Mention.userId <$> LogData.protected logData) ++
  (GraceUser.userId <$> LogData.graceUsers logData).

Definition isCompleted (o : Outcome) : Prop :=
  match o with
  | Completed _ _ => True
  | _ => False
  end.

(** The week counter of [u], 0 when [u] has no record. *)
Definition weeksOutOf (graceFile : gmap string GraceRecord) (u : UserId) : nat :=
  from_option weeksOut 0 (graceFile !! u).

(** ** What a run says about one user *)

Definition removedFor (u : UserId) (l : list Removed.t) : list Removed.t :=
  filter (λ e, Removed.userId e = u) l.

Definition graceFor (u : UserId) (l : list GraceUser.t) : list GraceUser.t :=
  filter (λ e, GraceUser.userId e = u) l.

Definition skippedFor (u : UserId) (l : list Skipped.t) : list Skipped.t :=
  filter (λ e, Skipped.userId e = u) l.

(** The part of the state of the pass over the holders that concerns [u]:
    the grace record and the entries pushed for [u]. *)
Definition view (u : UserId) (st : HolderState)
    : option GraceRecord * list Removed.t * list GraceUser.t * list Skipped.t :=
  (graceTracking st !! u, removedFor u (rolesRemoved st),
   graceFor u (graceUsers st), skippedFor u (protectedSkipped st)).

Definition descending (l : list UserData) : Prop :=
  StronglySorted (λ a b, mentionCount b ≤ mentionCount a) l.

(** The state in which the pass over the holders starts. *)
Definition fresh (tracking : gmap string GraceRecord) : HolderState :=
  {| graceTracking := tracking; rolesRemoved := []; graceUsers := [];
     protectedSkipped := [] |}.

(** What a completed run of the current engine says about [u]. *)
Definition runView (u : UserId) (logData : LogData.t)
    (graceFile' : gmap string GraceRecord) (skipped : list Skipped.t)
    : option GraceRecord * list Removed.t * list GraceUser.t * list Skipped.t :=
  (graceFile' !! u, removedFor u (LogData.rolesRemoved logData),
   graceFor u (LogData.graceUsers logData), skippedFor u skipped).

(** [u] is a key of [hierarchRole.members]; the keys of a Collection are
    distinct. *)
Definition holder (guild : Guild) (u : UserId) : Prop :=
  match roles_fetch_hierarch guild with
  | Some members => NoDup members ∧ u ∈ members
  | None => False
  end.

(** The keys of [hierarchRole.members], when the role is found, are
    distinct. *)
Definition holdersDistinct (guild : Guild) : Prop :=
  match roles_fetch_hierarch guild with
  | Some members => NoDup members
  | None => True
  end.

(** [u] is fetched as [m], holds no protected role and is not in the
    qualified set of the run. *)
Definition disqualified (PROTECTED_ROLES_IDS : list RoleId) (guild : Guild)
    (q : QualificationResult) (u : UserId) (m : Member) : Prop :=
  members_fetch guild u = Some m ∧
  ¬ roles_some m PROTECTED_ROLES_IDS ∧
  u ∉ qualifiedUserIds q.

(** In the run [r], [u] is a holder that is fetched, not protected and not
    qualified. *)
Definition quietFor (PROTECTED_ROLES_IDS : list RoleId) (u : UserId) (r : Run)
    : Prop :=
  holder (run_guild r) u ∧
  ∃ m, disqualified PROTECTED_ROLES_IDS (run_guild r) (run_qualified r) u m.

(** No completed run among the outcomes has a removal entry for [u]. *)
Definition neverRemoved (u : UserId) (outcomes : list Outcome) : Prop :=
  Forall (λ o, ∀ logData graceFile',
                 o = Completed logData graceFile' →
                 removedFor u (LogData.rolesRemoved logData) = [])
         outcomes.

(** [u] is fetched as a member with a protected role. *)
Definition protectedUser (PROTECTED_ROLES_IDS : list RoleId) (guild : Guild)
    (u : UserId) : Prop :=
  match members_fetch guild u with
  | Some m => roles_some m PROTECTED_ROLES_IDS
  | None => False
  end.

(** Every record has a week counter between 1 and the grace length. *)
Definition bounded (G : nat) (graceFile : gmap string GraceRecord) : Prop :=
  ∀ u r, graceFile !! u = Some r → 1 ≤ weeksOut r ≤ G.

(** The week counters are 1 or more, and within the grace length but for a
    holder whose role removal rejects. *)
Definition weeksInvariant (G : nat) (removeRole : UserId → bool)
    (tracking : gmap string GraceRecord) : Prop :=
  ∀ u r, tracking !! u = Some r →
         1 ≤ weeksOut r ∧ (weeksOut r ≤ G ∨ removeRole u = false).

(** No two of the four hold together. *)
Definition exclusive (A B C D : Prop) : Prop :=
  ¬ (A ∧ B) ∧ ¬ (A ∧ C) ∧ ¬ (A ∧ D) ∧ ¬ (B ∧ C) ∧ ¬ (B ∧ D) ∧ ¬ (C ∧ D).

(** ** Sample members, guilds and runs *)

Module Sample.
Definition HIERARCH : RoleId := "900".
Definition MEMBER : RoleId := "901".
Definition PROTECTED : list RoleId := ["910"].
Definition SPECIAL : list RoleId := ["920"; "921"].

(** A mentioned member without the Hierarch role. *)
Definition regular (id : UserId) (count : nat) : UserData :=
  {| userId := id; username := "user" +:+ id; mentionCount := count;
     member := {| nickname := None; user_username := "user" +:+ id;
                  roles_cache := [MEMBER] |} |}.

(** The same member once the role has been granted. *)
Definition veteran (id : UserId) (count : nat) : UserData :=
  {| userId := id; username := "user" +:+ id; mentionCount := count;
     member := {| nickname := None; user_username := "user" +:+ id;
                  roles_cache := [MEMBER; HIERARCH] |} |}.

Definition special (id : UserId) (count : nat) : UserData :=
  {| userId := id; username := "lead" +:+ id; mentionCount := count;
     member := {| nickname := Some ("lead" +:+ id); user_username := "u" +:+ id;
                  roles_cache := [MEMBER; "920"] |} |}.

(** A holder nobody mentions and a protected holder nobody mentions. *)
Definition quiet : Member :=
  {| nickname := Some "Quiet"; user_username := "quiet7";
     roles_cache := [MEMBER; HIERARCH] |}.

Definition lord : Member :=
  {| nickname := None; user_username := "lord8";
     roles_cache := [MEMBER; HIERARCH; "910"] |}.

Definition fetchWith (one : Member) (id : UserId) : option Member :=
  if decide (id = "7") then Some quiet
  else if decide (id = "8") then Some lord
  else if decide (id = "1") then Some one
  else None.

(** User 1 is mentioned and has not the role yet; every call resolves. *)
Definition calm : Guild :=
  {| members_fetch := fetchWith (member (regular "1" 5));
     roles_fetch_hierarch := Some ["7"; "8"];
     roles_add := λ _, true; roles_remove := λ _, true |}.

(** User 1 is mentioned and has the role; every call resolves. *)
Definition steady : Guild :=
  {| members_fetch := fetchWith (member (veteran "1" 5));
     roles_fetch_hierarch := Some ["1"; "7"; "8"];
     roles_add := λ _, true; roles_remove := λ _, true |}.

(** As [steady], but [roles.remove] rejects (missing permission, say). *)
Definition stubborn : Guild :=
  {| members_fetch := fetchWith (member (veteran "1" 5));
     roles_fetch_hierarch := Some ["1"; "7"; "8"];
     roles_add := λ _, true; roles_remove := λ _, false |}.

(** As [calm], but the Hierarch role is not found. *)
Definition roleless : Guild :=
  {| members_fetch := fetchWith (member (regular "1" 5));
     roles_fetch_hierarch := None;
     roles_add := λ _, true; roles_remove := λ _, true |}.

Definition mentions : list (UserId * nat) := [("1", 5)].

Definition q : QualificationResult := determineQualified [regular "1" 5] [] [].

Definition qv : QualificationResult := determineQualified [veteran "1" 5] [] [].

Definition theRun (ts : string) (guild : Guild) : Run :=
  {| run_guild := guild; run_qualified := qv; run_timestamp := ts |}.

Definition user1 : Mention.t :=
  {| Mention.username := "user1"; Mention.userId := "1"; Mention.mentions := 5 |}.

Definition logWith (ts : string) (added : list Mention.t)
    (removed : list Removed.t) (grace : list GraceUser.t) : LogData.t :=
  {| LogData.timestamp := ts;
     LogData.top30 :=
       [ {| Rank.rank := 1; Rank.username := "user1"; Rank.userId := "1";
            Rank.mentions := 5 |} ];
     LogData.specialRoles := [];
     LogData.protected := [];
     LogData.rolesAdded := added;
     LogData.rolesRemoved := removed;
     LogData.graceUsers := grace |}.

Definition graceEntry (w remaining : nat) : GraceUser.t :=
  {| GraceUser.username := "Quiet"; GraceUser.userId := "7";
     GraceUser.weeksOut := w; GraceUser.weeksRemaining := remaining |}.

Definition expiry : Removed.t :=
  {| Removed.username := "Quiet"; Removed.userId := "7";
     Removed.reason := "Grace period expired"; Removed.weeksOut := Some 3 |}.

Definition file (since : string) (w : nat) : gmap string GraceRecord :=
  {[ "7" := {| g_username := "Quiet"; weeksOut := w; firstWeekOut := since |} ]}.
End Sample.

(** ** More sample data *)

Module Trial.
Definition recent (ids : list UserId) : Message :=
  {| mentions := ids; expired := false |}.

Definition old (ids : list UserId) : Message :=
  {| mentions := ids; expired := true |}.

(** A channel of three pages whose second page ends with a message that is
    too old, a channel that is not found, and a channel of one page. *)
Definition channels : list (option (list Page)) :=
  [ Some [ {| messages := [recent ["1"; "7"]; recent ["1"]]; lastExpired := false |};
           {| messages := [recent ["8"]; old ["1"]]; lastExpired := true |};
           {| messages := [recent ["9"]]; lastExpired := false |} ];
    None;
    Some [ {| messages := [recent ["1"]]; lastExpired := false |} ] ].

(** Nothing is too old. *)
Definition freshChannels : list (option (list Page)) :=
  [ Some [ {| messages := [recent ["1"; "7"]; recent ["1"]]; lastExpired := false |} ];
    None;
    Some [ {| messages := [recent ["8"]]; lastExpired := false |} ] ].

(** As [Sample.calm], but [roles.add] rejects. *)
Definition closed : Guild :=
  {| members_fetch := Sample.fetchWith (member (Sample.regular "1" 5));
     roles_fetch_hierarch := Some ["7"; "8"];
     roles_add := λ _, false; roles_remove := λ _, true |}.

(** Nobody qualifies. *)
Definition nobody : QualificationResult := determineQualified [] [] [].

(** User 1 and the protected user 8 are mentioned. *)
Definition mentions : list (UserId * nat) := [("1", 5); ("8", 1)].

Definition lordLog : LogData.t :=
  {| LogData.timestamp := "t1";
     LogData.top30 :=
       [ {| Rank.rank := 1; Rank.username := "user1"; Rank.userId := "1";
            Rank.mentions := 5 |} ];
     LogData.specialRoles := [];
     LogData.protected :=
       [ {| Mention.username := "lord8"; Mention.userId := "8";
            Mention.mentions := 1 |} ];
     LogData.rolesAdded := [];
     LogData.rolesRemoved := [];
     LogData.graceUsers := [Sample.graceEntry 1 1] |}.

Definition dismissal : Removed.t :=
  {| Removed.username := "Quiet"; Removed.userId := "7";
     Removed.reason := "Not qualified"; Removed.weeksOut := None |}.

(** The log of a run in which nobody qualifies, user 1 starts its grace and
    user 7 is two weeks out. *)
Definition lapseLog : LogData.t :=
  {| LogData.timestamp := "t2";
     LogData.top30 := [];
     LogData.specialRoles := [];
     LogData.protected := [];
     LogData.rolesAdded := [];
     LogData.rolesRemoved := [];
     LogData.graceUsers :=
       [ {| GraceUser.username := "user1"; GraceUser.userId := "1";
            GraceUser.weeksOut := 1; GraceUser.weeksRemaining := 1 |};
         Sample.graceEntry 2 0 ] |}.

Definition lapseFile : gmap string GraceRecord :=
  <["1" := {| g_username := "user1"; weeksOut := 1; firstWeekOut := "t2" |}]>
    (Sample.file "t1" 2).

(** A record of somebody who holds the role no more. *)
Definition stale : GraceRecord :=
  {| g_username := "gone"; weeksOut := 2; firstWeekOut := "t0" |}.

(** The legacy guild: user 1 has the Member role, user 2 a special role and
    the Hierarch role, user 8 the protected role and the Hierarch role. *)
Definition chieftain : Member :=
  {| nickname := Some "Chief"; user_username := "chief2";
     roles_cache := ["1265029315532161176"; Legacy.HIERARCH_ROLE_ID] |}.

Definition highlord : Member :=
  {| nickname := None; user_username := "highlord8";
     roles_cache := [LegacyHandler.MEMBER_ROLE_ID; Legacy.HIERARCH_ROLE_ID;
                     "1247895646929817730"] |}.

Definition recruit : Member :=
  {| nickname := None; user_username := "user1";
     roles_cache := [LegacyHandler.MEMBER_ROLE_ID] |}.

Definition keep : Guild :=
  {| members_fetch := λ id,
       if decide (id = "1") then Some recruit
       else if decide (id = "2") then Some chieftain
       else if decide (id = "8") then Some highlord
       else None;
     roles_fetch_hierarch := Some ["2"; "8"];
     roles_add := λ _, true; roles_remove := λ _, true |}.

Definition legacyMentions : list (UserId * nat) := [("1", 5); ("2", 1)].

Definition legacyLog : Legacy.LogData.t :=
  {| Legacy.LogData.timestamp := "t1";
     Legacy.LogData.top30 :=
       [ {| Rank.rank := 1; Rank.username := "user1"; Rank.userId := "1";
            Rank.mentions := 5 |} ];
     Legacy.LogData.specialRoles :=
       [ {| Mention.username := "Chief"; Mention.userId := "2";
            Mention.mentions := 1 |} ];
     Legacy.LogData.rolesAdded :=
       [ {| Mention.username := "user1"; Mention.userId := "1";
            Mention.mentions := 5 |} ];
     Legacy.LogData.rolesRemoved := [];
     Legacy.LogData.graceUsers := [];
     Legacy.LogData.protectedSkipped :=
       [ {| Skipped.username := "highlord8"; Skipped.userId := "8" |} ] |}.
End Trial.

(** * Properties *)

(** ** Ranking and threshold *)

Lemma insert_desc_elem_of x y l : y ∈ insert_desc x l ↔ y = x ∨ y ∈ l.
Proof.
  induction l as [|z l IH]; simpl.
  - rewrite list_elem_of_singleton, elem_of_nil. tauto.
  - case_decide.
    + by rewrite elem_of_cons.
    + rewrite !elem_of_cons, IH. tauto.
Qed.

Lemma insert_desc_Permutation x l : insert_desc x l ≡ₚ x :: l.
Proof.
  induction l as [|z l IH]; simpl; [done|].
  case_decide; [done|]. rewrite IH. apply perm_swap.
Qed.

Lemma sort_desc_Permutation l : sort_desc l ≡ₚ l.
Proof.
  induction l as [|x l IH]; simpl; [done|].
  by rewrite insert_desc_Permutation, IH.
Qed.

Lemma insert_desc_descending x l : descending l → descending (insert_desc x l).
Proof.
  unfold descending. induction l as [|z l IH]; simpl; intros Hl.
  - repeat constructor.
  - apply StronglySorted_cons in Hl as [Hz Hl]. case_decide as Hle.
    + apply StronglySorted_cons. split.
      * constructor; [done|]. eapply Forall_impl; [exact Hz|]. simpl. lia.
      * by apply StronglySorted_cons.
    + apply StronglySorted_cons. split; [|by apply IH].
      apply Forall_forall. intros y [->|Hy]%insert_desc_elem_of; [lia|].
      by eapply Forall_forall in Hz.
Qed.

Lemma sort_desc_descending l : descending (sort_desc l).
Proof.
  induction l as [|x l IH]; simpl; [constructor|].
  by apply insert_desc_descending.
Qed.

Lemma threshold_last regular special protected :
  threshold (determineQualified regular special protected)
  = from_option mentionCount 0 (last (take TOP_COUNT regular)).
Proof.
  unfold determineQualified; simpl.
  rewrite last_lookup. case_decide as Hlen.
  - replace (pred (length (take TOP_COUNT regular)))
      with (length (take TOP_COUNT regular) - 1) by lia.
    by destruct (take TOP_COUNT regular !! _).
  - destruct (take TOP_COUNT regular) as [|u l]; [done|simpl in Hlen; lia].
Qed.

Lemma descending_last_least l u v :
  descending l → last l = Some u → v ∈ l → mentionCount u ≤ mentionCount v.
Proof.
  intros Hl [l' ->]%last_Some [Hv| ->%list_elem_of_singleton]%elem_of_app; [|done].
  unfold descending in Hl. apply StronglySorted_app in Hl as [Hle _].
  apply (Hle v u); [done|]. apply list_elem_of_singleton. done.
Qed.

Lemma descending_take n l : descending l → descending (take n l).
Proof.
  intros Hl. rewrite <-(take_drop n l) in Hl.
  by apply StronglySorted_app_1_l in Hl.
Qed.

Lemma threshold_least regular special protected v :
  descending regular →
  v ∈ top30Regular (determineQualified regular special protected) →
  threshold (determineQualified regular special protected) ≤ mentionCount v.
Proof.
  intros Hsorted Hv. rewrite threshold_last. simpl in Hv.
  destruct (last (take TOP_COUNT regular)) as [u|] eqn:Hlast; simpl; [|lia].
  eapply descending_last_least; [|exact Hlast|exact Hv].
  by apply descending_take.
Qed.

(** The lists [categorizeMembers] returns are sorted, so in the handler no
    qualified Regular user has fewer mentions than the threshold. *)
Lemma categorizeMembers_descending M P S guild entries :
  descending (regularMembers (categorizeMembers M P S guild entries)) ∧
  descending (specialMembers (categorizeMembers M P S guild entries)).
Proof. split; apply sort_desc_descending. Qed.

Lemma handler_threshold_least M P S guild entries v :
  let c := categorizeMembers M P S guild entries in
  let q := determineQualified (regularMembers c) (specialMembers c)
             (protectedMembers c) in
  v ∈ top30Regular q → threshold q ≤ mentionCount v.
Proof.
  intros c q. apply threshold_least. apply categorizeMembers_descending.
Qed.

(** C2, as the code has it: the threshold is the mention count of the last
    of the (at most [TOP_COUNT]) qualified Regular users, whatever their
    number, and 0 only when no Regular user is given at all; when the Regular
    list is sorted as [categorizeMembers] leaves it, no qualified Regular
    user has fewer mentions than the threshold. *)
Theorem threshold_is_lowest_qualified_regular regular special protected :
  let q := determineQualified regular special protected in
  top30Regular q = take TOP_COUNT regular ∧
  (regular = [] → threshold q = 0) ∧
  (regular ≠ [] →
     ∃ u, last (top30Regular q) = Some u ∧ threshold q = mentionCount u) ∧
  (descending regular →
     ∀ v, v ∈ top30Regular q → threshold q ≤ mentionCount v).
Proof.
  intros q. subst q. split; [done|].
  split; [by intros ->|]. split.
  - intros Hne. rewrite threshold_last. simpl.
    destruct (last (take TOP_COUNT regular)) as [u|] eqn:Hlast; [by eexists|].
    apply last_None in Hlast. destruct regular; [done|discriminate].
  - intros Hsorted v Hv. by apply threshold_least.
Qed.

(** C3: every qualified Special user has strictly more mentions than the
    threshold, a Special user whose count equals the threshold is not
    qualified, and without any Regular user the threshold is 0 and every
    Special user with at least one mention qualifies. *)
Theorem qualifiedSpecial_beats_threshold regular special protected :
  let q := determineQualified regular special protected in
  (∀ u, u ∈ qualifiedSpecial q → u ∈ special ∧ threshold q < mentionCount u) ∧
  (∀ u, u ∈ special → mentionCount u = threshold q → u ∉ qualifiedSpecial q) ∧
  (regular = [] →
     threshold q = 0 ∧
     ∀ u, u ∈ special → 1 ≤ mentionCount u → u ∈ qualifiedSpecial q).
Proof.
  intros q. subst q. split; [|split].
  - intros u Hu. simpl in Hu. apply list_elem_of_filter in Hu as [Hlt Hin].
    split; [done|]. exact Hlt.
  - intros u _ Heq Hu. simpl in Hu. apply list_elem_of_filter in Hu as [Hlt _].
    simpl in Heq. lia.
  - intros ->. split; [done|]. intros u Hu Hpos. simpl.
    apply list_elem_of_filter. split; [simpl; lia|done].
Qed.

(** ** The pass over the holders, one user at a time *)

Lemma removedFor_app u l k : removedFor u (l ++ k) = removedFor u l ++ removedFor u k.
Proof. apply filter_app. Qed.

Lemma graceFor_app u l k : graceFor u (l ++ k) = graceFor u l ++ graceFor u k.
Proof. apply filter_app. Qed.

Lemma skippedFor_app u l k : skippedFor u (l ++ k) = skippedFor u l ++ skippedFor u k.
Proof. apply filter_app. Qed.

Lemma removedFor_nil_iff u l : removedFor u l = [] ↔ u ∉ Removed.userId <$> l.
Proof.
  unfold removedFor. induction l as [|e l IH]; simpl.
  - rewrite elem_of_nil. tauto.
  - rewrite filter_cons, elem_of_cons. case_decide as He.
    + split; [done|]. intros []. by left.
    + rewrite IH. split; [|tauto]. intros Hn [->|?]; [done|tauto].
Qed.

Lemma graceFor_nil_iff u l : graceFor u l = [] ↔ u ∉ GraceUser.userId <$> l.
Proof.
  unfold graceFor. induction l as [|e l IH]; simpl.
  - rewrite elem_of_nil. tauto.
  - rewrite filter_cons, elem_of_cons. case_decide as He.
    + split; [done|]. intros []. by left.
    + rewrite IH. split; [|tauto]. intros Hn [->|?]; [done|tauto].
Qed.

Lemma skippedFor_nil_iff u l : skippedFor u l = [] ↔ u ∉ Skipped.userId <$> l.
Proof.
  unfold skippedFor. induction l as [|e l IH]; simpl.
  - rewrite elem_of_nil. tauto.
  - rewrite filter_cons, elem_of_cons. case_decide as He.
    + split; [done|]. intros []. by left.
    + rewrite IH. split; [|tauto]. intros Hn [->|?]; [done|tauto].
Qed.

Section HolderPassFacts.
Variable PROTECTED_ROLES_IDS : list RoleId.
Variable G : nat.
Variable immediateReason : string.
Variable fetch : UserId → option Member.
Variable removeRole : UserId → bool.
Variable qualifiedUserIds : gset string.
Variable timestamp : string.

Local Abbreviation step :=
  (handleHolder PROTECTED_ROLES_IDS G immediateReason fetch removeRole
     qualifiedUserIds timestamp).
Local Abbreviation pass :=
  (holderPass PROTECTED_ROLES_IDS G immediateReason fetch removeRole
     qualifiedUserIds timestamp).

Local Ltac step_cases :=
  unfold handleHolder, view;
  repeat (first [ case_decide | case_match ]); simpl;
  rewrite ?removedFor_app, ?graceFor_app, ?skippedFor_app.

Local Ltac drop_other :=
  unfold removedFor, graceFor, skippedFor;
  rewrite ?filter_cons, ?filter_nil; simpl;
  rewrite ?decide_False by congruence;
  rewrite ?decide_True by congruence;
  rewrite ?app_nil_r.

(** The turn of another holder leaves what concerns [u] as it was. *)
Lemma handleHolder_other u v st : v ≠ u → view u (step st v) = view u st.
Proof.
  intros Hne. step_cases; drop_other;
    rewrite ?lookup_delete_ne, ?lookup_insert_ne by done; done.
Qed.

(** A qualified holder is passed over. *)
Lemma handleHolder_qualified v st : v ∈ qualifiedUserIds → step st v = st.
Proof. intros Hq. unfold handleHolder. by rewrite decide_True. Qed.

Lemma holderPass_cons v members st : pass (v :: members) st = pass members (step st v).
Proof. done. Qed.

Lemma holderPass_untouched u members st :
  u ∉ members ∨ u ∈ qualifiedUserIds → view u (pass members st) = view u st.
Proof.
  revert st. induction members as [|v members IH]; intros st Hu; [done|].
  rewrite holderPass_cons, IH.
  - destruct (decide (v = u)) as [->|Hne].
    + destruct Hu as [Hu|Hu]; [by rewrite not_elem_of_cons in Hu; destruct Hu|].
      by rewrite handleHolder_qualified.
    + by apply handleHolder_other.
  - destruct Hu as [Hu|Hu]; [left|by right].
    rewrite not_elem_of_cons in Hu. tauto.
Qed.

(** The turn of [u] itself depends on the state only through what
    concerns [u]. *)
Lemma handleHolder_view u st1 st2 :
  view u st1 = view u st2 → view u (step st1 u) = view u (step st2 u).
Proof.
  unfold view. intros [= Hrec Hrem Hgr Hsk].
  unfold handleHolder.
  destruct (decide (u ∈ qualifiedUserIds)); [by simpl; congruence|].
  destruct (fetch u) as [m|]; [|by simpl; congruence].
  destruct (decide (roles_some m PROTECTED_ROLES_IDS)).
  { simpl. rewrite !skippedFor_app. congruence. }
  destruct (decide (0 < G)).
  - rewrite Hrec. destruct (graceTracking st2 !! u) as [r|].
    + destruct (decide (G < weeksOut r + 1)).
      * destruct (removeRole u); simpl;
          rewrite ?removedFor_app, ?lookup_delete_eq, ?lookup_insert_eq;
          congruence.
      * simpl. rewrite !graceFor_app, !lookup_insert_eq. congruence.
    + simpl. rewrite !graceFor_app, !lookup_insert_eq. congruence.
  - destruct (removeRole u); simpl; rewrite ?removedFor_app; congruence.
Qed.

(** In a pass over distinct holders, what concerns a holder is decided by
    its own turn alone. *)
Lemma holderPass_view u members st :
  NoDup members → u ∈ members → view u (pass members st) = view u (step st u).
Proof.
  revert st. induction members as [|v members IH]; intros st Hnd Hu.
  - by apply elem_of_nil in Hu.
  - apply NoDup_cons in Hnd as [Hv Hnd]. rewrite holderPass_cons.
    destruct (decide (v = u)) as [->|Hne].
    + apply holderPass_untouched. by left.
    + apply elem_of_cons in Hu as [->|Hu]; [done|].
      rewrite IH by done. apply handleHolder_view.
      by apply handleHolder_other.
Qed.

Section OneHolder.
Variables (u : UserId) (m : Member) (st : HolderState).
Hypothesis Hnq : u ∉ qualifiedUserIds.
Hypothesis Hfetch : fetch u = Some m.

Lemma handleHolder_protected :
  roles_some m PROTECTED_ROLES_IDS →
  view u (step st u) =
    (graceTracking st !! u, removedFor u (rolesRemoved st),
     graceFor u (graceUsers st),
     skippedFor u (protectedSkipped st) ++
       [ {| Skipped.username := displayName m; Skipped.userId := u |} ]).
Proof.
  intros Hp. unfold handleHolder, view.
  rewrite decide_False, Hfetch, decide_True by done. simpl.
  rewrite skippedFor_app. do 2 f_equal.
  unfold skippedFor. by rewrite filter_cons, decide_True.
Qed.

Hypothesis Hnp : ¬ roles_some m PROTECTED_ROLES_IDS.
Hypothesis HG : 0 < G.

Lemma handleHolder_started :
  graceTracking st !! u = None →
  view u (step st u) =
    (Some {| g_username := displayName m; weeksOut := 1;
             firstWeekOut := timestamp |},
     removedFor u (rolesRemoved st),
     graceFor u (graceUsers st) ++
       [ {| GraceUser.username := displayName m; GraceUser.userId := u;
            GraceUser.weeksOut := 1; GraceUser.weeksRemaining := G - 1 |} ],
     skippedFor u (protectedSkipped st)).
Proof.
  intros Hrec. unfold handleHolder, view.
  rewrite decide_False, Hfetch, decide_False, decide_True, Hrec by done.
  simpl. rewrite lookup_insert_eq, graceFor_app. do 3 f_equal.
  unfold graceFor. by rewrite filter_cons, decide_True.
Qed.

Lemma handleHolder_continued r :
  graceTracking st !! u = Some r → weeksOut r + 1 ≤ G →
  view u (step st u) =
    (Some {| g_username := g_username r; weeksOut := weeksOut r + 1;
             firstWeekOut := firstWeekOut r |},
     removedFor u (rolesRemoved st),
     graceFor u (graceUsers st) ++
       [ {| GraceUser.username := displayName m; GraceUser.userId := u;
            GraceUser.weeksOut := weeksOut r + 1;
            GraceUser.weeksRemaining := G - (weeksOut r + 1) |} ],
     skippedFor u (protectedSkipped st)).
Proof.
  intros Hrec Hle. unfold handleHolder, view.
  rewrite decide_False, Hfetch, decide_False, decide_True, Hrec by done.
  rewrite decide_False by lia.
  simpl. rewrite lookup_insert_eq, graceFor_app. do 3 f_equal.
  unfold graceFor. by rewrite filter_cons, decide_True.
Qed.

Lemma handleHolder_expired r :
  graceTracking st !! u = Some r → G < weeksOut r + 1 →
  removeRole u = true →
  view u (step st u) =
    (None,
     removedFor u (rolesRemoved st) ++
       [ {| Removed.username := displayName m; Removed.userId := u;
            Removed.reason := "Grace period expired";
            Removed.weeksOut := Some (weeksOut r + 1) |} ],
     graceFor u (graceUsers st),
     skippedFor u (protectedSkipped st)).
Proof.
  intros Hrec Hlt Hrm. unfold handleHolder, view.
  rewrite decide_False, Hfetch, decide_False, decide_True, Hrec by done.
  rewrite decide_True, Hrm by lia.
  simpl. rewrite lookup_delete_eq, removedFor_app. do 4 f_equal.
  unfold removedFor. by rewrite filter_cons, decide_True.
Qed.

Lemma handleHolder_stuck r :
  graceTracking st !! u = Some r → G < weeksOut r + 1 →
  removeRole u = false →
  view u (step st u) =
    (Some {| g_username := g_username r; weeksOut := weeksOut r + 1;
             firstWeekOut := firstWeekOut r |},
     removedFor u (rolesRemoved st), graceFor u (graceUsers st),
     skippedFor u (protectedSkipped st)).
Proof.
  intros Hrec Hlt Hrm. unfold handleHolder, view.
  rewrite decide_False, Hfetch, decide_False, decide_True, Hrec by done.
  rewrite decide_True, Hrm by lia.
  simpl. by rewrite lookup_insert_eq.
Qed.
End OneHolder.
End HolderPassFacts.

(** ** The current engine *)

Lemma clearGrace_delete id (tracking : gmap string GraceRecord) :
  clearGrace id tracking = delete id tracking.
Proof.
  unfold clearGrace. destruct (tracking !! id) eqn:Hid; [done|].
  symmetry. by apply delete_id.
Qed.

Section EngineFacts.
Variable HIERARCH_ROLE_ID : RoleId.
Variable PROTECTED_ROLES_IDS : list RoleId.

Local Abbreviation lacksRole :=
  (λ user : UserData, ¬ roles_has (member user) HIERARCH_ROLE_ID).
Local Abbreviation run := (manageRolesWith HIERARCH_ROLE_ID PROTECTED_ROLES_IDS).
Local Abbreviation printed := (skippedProtected HIERARCH_ROLE_ID PROTECTED_ROLES_IDS).
Local Abbreviation turn G guild q ts :=
  (handleHolder PROTECTED_ROLES_IDS G "Not qualified" (members_fetch guild)
     (roles_remove guild) (qualifiedUserIds q) ts).
Local Abbreviation pass G guild q ts :=
  (holderPass PROTECTED_ROLES_IDS G "Not qualified" (members_fetch guild)
     (roles_remove guild) (qualifiedUserIds q) ts).

(** The loop over the qualified users, when no [roles.add] rejects. *)
Lemma grantPass_inl guild users tracking added tracking' added' :
  grantPass HIERARCH_ROLE_ID guild users tracking added = inl (tracking', added') →
  added' = added ++ (mentionOf <$> filter lacksRole users) ∧
  ∀ u, tracking' !! u =
       if decide (u ∈ userId <$> users) then None else tracking !! u.
Proof.
  revert tracking added.
  induction users as [|user users IH]; intros tracking added Hg; simpl in Hg.
  - injection Hg as <- <-. split; [by rewrite app_nil_r|].
    intros u. rewrite fmap_nil.
    case_decide as Hin; [by apply elem_of_nil in Hin|done].
  - rewrite clearGrace_delete in Hg. rewrite filter_cons, fmap_cons.
    assert (∀ u (tracking'' : gmap string GraceRecord),
      (tracking'' !! u = if decide (u ∈ userId <$> users) then None
                         else delete (userId user) tracking !! u) →
      tracking'' !! u = if decide (u ∈ userId user :: (userId <$> users))
                        then None else tracking !! u) as Hstep.
    { intros u t ->. destruct (decide (u = userId user)) as [->|Hne].
      - rewrite lookup_delete_eq, (decide_True (P := _ ∈ _ :: _)) by (by left).
        by destruct (decide (userId user ∈ userId <$> users)).
      - rewrite lookup_delete_ne by done.
        destruct (decide (u ∈ userId <$> users)) as [Hin|Hnin].
        + by rewrite decide_True by (by right).
        + rewrite decide_False; [done|].
          intros [?|?]%elem_of_cons; done. }
    destruct (decide (roles_has (member user) HIERARCH_ROLE_ID)) as [Hhas|Hnot].
    + apply IH in Hg as [-> Hlook].
      rewrite (decide_False (P := lacksRole user)) by tauto. split; [done|].
      intros u. apply Hstep, Hlook.
    + destruct (roles_add guild (userId user)); [|done].
      apply IH in Hg as [-> Hlook].
      rewrite (decide_True (P := lacksRole user)) by done. split.
      { by rewrite fmap_cons, <-app_assoc. }
      intros u. apply Hstep, Hlook.
Qed.

Lemma grantPass_resolves guild users tracking added :
  (∀ user, user ∈ users → lacksRole user → roles_add guild (userId user) = true) →
  ∃ tracking' added',
    grantPass HIERARCH_ROLE_ID guild users tracking added = inl (tracking', added').
Proof.
  revert tracking added.
  induction users as [|user users IH]; intros tracking added Hadd; simpl.
  - by eexists _, _.
  - case_decide.
    + apply IH. intros ???. apply Hadd; [by right|done].
    + rewrite Hadd by (done || by left).
      apply IH. intros ???. apply Hadd; [by right|done].
Qed.

Lemma elem_of_qualifiedUserIds q u :
  u ∈ qualifiedUserIds q ↔ u ∈ userId <$> allQualified q.
Proof. unfold qualifiedUserIds. by rewrite elem_of_list_to_set. Qed.

(** What a completed run is made of. *)
Lemma run_Completed_inv G guild q ts graceFile logData graceFile' :
  run G guild q ts graceFile = Completed logData graceFile' →
  ∃ members tracking,
    roles_fetch_hierarch guild = Some members ∧
    (∀ u, tracking !! u =
          if decide (u ∈ qualifiedUserIds q) then None else graceFile !! u) ∧
    LogData.rolesAdded logData = mentionOf <$> filter lacksRole (allQualified q) ∧
    LogData.rolesRemoved logData =
      rolesRemoved (pass G guild q ts members (fresh tracking)) ∧
    LogData.graceUsers logData =
      graceUsers (pass G guild q ts members (fresh tracking)) ∧
    printed G guild q ts graceFile =
      protectedSkipped (pass G guild q ts members (fresh tracking)) ∧
    graceFile' = graceTracking (pass G guild q ts members (fresh tracking)).
Proof.
  unfold manageRolesWith, skippedProtected.
  destruct (roles_fetch_hierarch guild) as [members|]; [|done].
  destruct (grantPass _ _ _ _ _) as [[tracking added]|] eqn:Hgrant; [|done].
  intros [= <- <-]. apply grantPass_inl in Hgrant as [-> Hlook].
  exists members, tracking. split; [done|]. split; [|done].
  intros u. rewrite Hlook.
  destruct (decide (u ∈ userId <$> allQualified q)) as [Hin|Hnin].
  - by rewrite decide_True by (by apply elem_of_qualifiedUserIds).
  - rewrite decide_False; [done|]. by rewrite elem_of_qualifiedUserIds.
Qed.

(** A run completes when the role is found and no [roles.add] rejects. *)
Lemma run_completes G guild q ts graceFile members :
  roles_fetch_hierarch guild = Some members →
  (∀ user, user ∈ allQualified q → lacksRole user →
           roles_add guild (userId user) = true) →
  ∃ logData graceFile', run G guild q ts graceFile = Completed logData graceFile'.
Proof.
  intros Hrole Hadd. unfold manageRolesWith. rewrite Hrole.
  destruct (grantPass_resolves guild (allQualified q) graceFile [] Hadd)
    as (tracking & added & ->).
  by eexists _, _.
Qed.

(** For a holder that is not qualified, it is the turn of that holder from
    the grace file as read. *)
Lemma run_view_holder G guild q ts graceFile logData graceFile' members u :
  run G guild q ts graceFile = Completed logData graceFile' →
  roles_fetch_hierarch guild = Some members → NoDup members →
  u ∈ members → u ∉ qualifiedUserIds q →
  runView u logData graceFile' (printed G guild q ts graceFile)
  = view u (turn G guild q ts (fresh graceFile) u).
Proof.
  intros (members' & tracking & Hrole & Hlook & _ & Hrem & Hgr & Hsk & ->)
    %run_Completed_inv Hrole' Hnd Hu Hnq.
  assert (members' = members) as -> by congruence.
  unfold runView. rewrite Hrem, Hgr, Hsk.
  change (view u (pass G guild q ts members (fresh tracking))
          = view u (turn G guild q ts (fresh graceFile) u)).
  rewrite holderPass_view by done. apply handleHolder_view.
  unfold view, fresh; simpl. by rewrite Hlook, decide_False.
Qed.

(** For anybody else, nothing is said and the record is cleared (if
    qualified) or left alone. *)
Lemma run_view_other G guild q ts graceFile logData graceFile' members u :
  run G guild q ts graceFile = Completed logData graceFile' →
  roles_fetch_hierarch guild = Some members →
  u ∉ members ∨ u ∈ qualifiedUserIds q →
  runView u logData graceFile' (printed G guild q ts graceFile)
  = (if decide (u ∈ qualifiedUserIds q) then None else graceFile !! u, [], [], []).
Proof.
  intros (members' & tracking & Hrole & Hlook & _ & Hrem & Hgr & Hsk & ->)
    %run_Completed_inv Hrole' Hu.
  assert (members' = members) as -> by congruence.
  unfold runView. rewrite Hrem, Hgr, Hsk.
  change (view u (pass G guild q ts members (fresh tracking)) = 
          (if decide (u ∈ qualifiedUserIds q) then None else graceFile !! u,
           [], [], [])).
  rewrite holderPass_untouched by done.
  unfold view, fresh; simpl. by rewrite Hlook.
Qed.
End EngineFacts.

(** ** Claims about one run and about consecutive runs *)

Section EngineClaims.
Variable HIERARCH_ROLE_ID : RoleId.
Variable PROTECTED_ROLES_IDS : list RoleId.

Local Abbreviation lacksRole :=
  (λ user : UserData, ¬ roles_has (member user) HIERARCH_ROLE_ID).
Local Abbreviation run := (manageRolesWith HIERARCH_ROLE_ID PROTECTED_ROLES_IDS).
Local Abbreviation manageRoles' := (manageRoles HIERARCH_ROLE_ID PROTECTED_ROLES_IDS).
Local Abbreviation printed := (skippedProtected HIERARCH_ROLE_ID PROTECTED_ROLES_IDS).
Local Abbreviation turn G guild q ts :=
  (handleHolder PROTECTED_ROLES_IDS G "Not qualified" (members_fetch guild)
     (roles_remove guild) (qualifiedUserIds q) ts).

(** The turn of a disqualified holder in a completed run. *)
Lemma run_view_disqualified G guild q ts graceFile logData graceFile' u m :
  run G guild q ts graceFile = Completed logData graceFile' →
  holder guild u → disqualified PROTECTED_ROLES_IDS guild q u m →
  runView u logData graceFile' (printed G guild q ts graceFile)
  = view u (turn G guild q ts (fresh graceFile) u).
Proof.
  intros Hrun Hh (_ & _ & Hnq). unfold holder in Hh.
  destruct (roles_fetch_hierarch guild) as [members|] eqn:Hrole; [|done].
  destruct Hh as [Hnd Hu]. by eapply run_view_holder.
Qed.

(** C1: with the grace length 2 of the engine, a holder without record
    that is disqualified in three consecutive completed runs gets a record
    with [weeksOut = 1] and a grace entry (1 week out, 1 remaining) in the
    first, [weeksOut = 2] and a grace entry (2 out, 0 remaining) in the
    second.  In the third, when the role removal resolves, it gets exactly
    one entry of [rolesRemoved], with reason [Grace period expired] and
    [weeksOut = 3], no grace entry, and no record any more; when the role
    removal rejects, it gets no entry at all and its record is kept with
    [weeksOut = 3]. *)
Theorem grace_expires_on_third_run
    g1 g2 g3 q1 q2 q3 t1 t2 t3 s0 l1 s1 l2 s2 l3 s3 u m1 m2 m3 :
  s0 !! u = None →
  holder g1 u → disqualified PROTECTED_ROLES_IDS g1 q1 u m1 →
  holder g2 u → disqualified PROTECTED_ROLES_IDS g2 q2 u m2 →
  holder g3 u → disqualified PROTECTED_ROLES_IDS g3 q3 u m3 →
  manageRoles' g1 q1 t1 s0 = Completed l1 s1 →
  manageRoles' g2 q2 t2 s1 = Completed l2 s2 →
  manageRoles' g3 q3 t3 s2 = Completed l3 s3 →
  (s1 !! u = Some {| g_username := displayName m1; weeksOut := 1;
                     firstWeekOut := t1 |} ∧
   removedFor u (LogData.rolesRemoved l1) = [] ∧
   graceFor u (LogData.graceUsers l1) =
     [ {| GraceUser.username := displayName m1; GraceUser.userId := u;
          GraceUser.weeksOut := 1; GraceUser.weeksRemaining := 1 |} ]) ∧
  (s2 !! u = Some {| g_username := displayName m1; weeksOut := 2;
                     firstWeekOut := t1 |} ∧
   removedFor u (LogData.rolesRemoved l2) = [] ∧
   graceFor u (LogData.graceUsers l2) =
     [ {| GraceUser.username := displayName m2; GraceUser.userId := u;
          GraceUser.weeksOut := 2; GraceUser.weeksRemaining := 0 |} ]) ∧
  (s3 !! u, removedFor u (LogData.rolesRemoved l3),
   graceFor u (LogData.graceUsers l3))
  = if roles_remove g3 u then
      (None,
       [ {| Removed.username := displayName m3; Removed.userId := u;
            Removed.reason := "Grace period expired";
            Removed.weeksOut := Some 3 |} ],
       [])
    else
      (Some {| g_username := displayName m1; weeksOut := 3;
               firstWeekOut := t1 |},
       [], []).
Proof.
  intros Hs0 Hh1 Hd1 Hh2 Hd2 Hh3 Hd3 Hr1 Hr2 Hr3.
  pose proof (run_view_disqualified _ _ _ _ _ _ _ _ _ Hr1 Hh1 Hd1) as Hv1.
  destruct Hd1 as (Hf1 & Hp1 & Hq1).
  erewrite handleHolder_started in Hv1;
    [|exact Hq1|exact Hf1|exact Hp1|unfold GRACE_PERIOD_WEEKS; lia|exact Hs0].
  injection Hv1 as Hs1 Hrem1 Hgr1 _.
  pose proof (run_view_disqualified _ _ _ _ _ _ _ _ _ Hr2 Hh2 Hd2) as Hv2.
  destruct Hd2 as (Hf2 & Hp2 & Hq2).
  erewrite handleHolder_continued in Hv2;
    [|exact Hq2|exact Hf2|exact Hp2|unfold GRACE_PERIOD_WEEKS; lia|exact Hs1
     |simpl; unfold GRACE_PERIOD_WEEKS; lia].
  injection Hv2 as Hs2 Hrem2 Hgr2 _.
  pose proof (run_view_disqualified _ _ _ _ _ _ _ _ _ Hr3 Hh3 Hd3) as Hv3.
  destruct Hd3 as (Hf3 & Hp3 & Hq3).
  destruct (roles_remove g3 u) eqn:Hrm.
  - erewrite handleHolder_expired in Hv3;
      [|exact Hq3|exact Hf3|exact Hp3|unfold GRACE_PERIOD_WEEKS; lia|exact Hs2
       |simpl; unfold GRACE_PERIOD_WEEKS; lia|exact Hrm].
    injection Hv3 as Hs3 Hrem3 Hgr3 _.
    rewrite Hs3, Hrem3, Hgr3. repeat split; done.
  - erewrite handleHolder_stuck in Hv3;
      [|exact Hq3|exact Hf3|exact Hp3|unfold GRACE_PERIOD_WEEKS; lia|exact Hs2
       |simpl; unfold GRACE_PERIOD_WEEKS; lia|exact Hrm].
    injection Hv3 as Hs3 Hrem3 Hgr3 _.
    rewrite Hs3, Hrem3, Hgr3. repeat split; done.
Qed.

(** C5: the [rolesAdded] of a completed run are exactly the users of the
    qualified union (Regular, Special, Protected, in that order) whose
    member does not have the Hierarch role; and a run completes as soon as
    the role is found and no [roles.add] rejects. *)
Theorem added_are_qualified_without_role G guild q ts graceFile :
  (∀ logData graceFile',
     run G guild q ts graceFile = Completed logData graceFile' →
     LogData.rolesAdded logData =
       mentionOf <$> filter lacksRole
         (top30Regular q ++ qualifiedSpecial q ++ qualifiedProtected q)) ∧
  (is_Some (roles_fetch_hierarch guild) →
   (∀ user, user ∈ allQualified q → lacksRole user →
            roles_add guild (userId user) = true) →
   ∃ logData graceFile', run G guild q ts graceFile = Completed logData graceFile').
Proof.
  split.
  - intros logData graceFile' Hrun.
    apply run_Completed_inv in Hrun as (? & ? & _ & _ & Hadded & _). done.
  - intros [members Hrole] Hadd. by eapply run_completes.
Qed.

End EngineClaims.

(** ** Invariants of the pass over the holders *)

Section HolderPassInvariants.
Variable PROTECTED_ROLES_IDS : list RoleId.
Variable G : nat.
Variable immediateReason : string.
Variable fetch : UserId → option Member.
Variable removeRole : UserId → bool.
Variable qualifiedUserIds : gset string.
Variable timestamp : string.

Local Abbreviation step :=
  (handleHolder PROTECTED_ROLES_IDS G immediateReason fetch removeRole
     qualifiedUserIds timestamp).
Local Abbreviation pass :=
  (holderPass PROTECTED_ROLES_IDS G immediateReason fetch removeRole
     qualifiedUserIds timestamp).

(** Whoever is fetched with a protected role keeps the record it had (or
    had not) and gets no removal or grace entry, whatever the holders. *)
Lemma holderPass_protected u m members st :
  fetch u = Some m → roles_some m PROTECTED_ROLES_IDS →
  graceTracking (pass members st) !! u = graceTracking st !! u ∧
  removedFor u (rolesRemoved (pass members st)) = removedFor u (rolesRemoved st) ∧
  graceFor u (graceUsers (pass members st)) = graceFor u (graceUsers st).
Proof.
  intros Hf Hp. revert st.
  induction members as [|v members IH]; intros st; [done|].
  rewrite holderPass_cons. destruct (IH (step st v)) as (-> & -> & ->).
  assert (∃ sk, view u (step st v) =
                (graceTracking st !! u, removedFor u (rolesRemoved st),
                 graceFor u (graceUsers st), sk)) as [sk Hv].
  { destruct (decide (v = u)) as [->|Hne].
    - destruct (decide (u ∈ qualifiedUserIds)) as [Hq|Hnq].
      + rewrite handleHolder_qualified by done. by eexists.
      + erewrite handleHolder_protected by done. by eexists.
    - rewrite handleHolder_other by done. by eexists. }
  unfold view in Hv. by injection Hv as -> -> ->.
Qed.

Local Abbreviation weeksInvariant' := (weeksInvariant G removeRole).

Lemma handleHolder_weeks st v :
  0 < G → weeksInvariant' (graceTracking st) →
  weeksInvariant' (graceTracking (step st v)).
Proof.
  intros HG Hinv. unfold handleHolder.
  destruct (decide (v ∈ qualifiedUserIds)); [done|].
  destruct (fetch v) as [m|]; [|done].
  destruct (decide (roles_some m PROTECTED_ROLES_IDS)); [done|].
  rewrite decide_True by done.
  destruct (graceTracking st !! v) as [r|] eqn:Hrec.
  - destruct (decide (G < weeksOut r + 1)) as [Hlt|Hle].
    + destruct (removeRole v) eqn:Hrm; simpl; intros u r' Hu.
      * rewrite lookup_delete in Hu. case_decide; [done|].
        rewrite lookup_insert_ne in Hu by done. by apply Hinv.
      * rewrite lookup_insert in Hu. case_decide as Hvu.
        -- injection Hu as <-. subst u. simpl. split; [lia|by right].
        -- by apply Hinv.
    + simpl. intros u r' Hu. rewrite lookup_insert in Hu. case_decide.
      * injection Hu as <-. simpl. split; [lia|left; lia].
      * by apply Hinv.
  - simpl. intros u r' Hu. rewrite lookup_insert in Hu. case_decide.
    + injection Hu as <-. simpl. split; [lia|left; lia].
    + by apply Hinv.
Qed.

Lemma holderPass_weeks members st :
  0 < G → weeksInvariant' (graceTracking st) →
  weeksInvariant' (graceTracking (pass members st)).
Proof.
  intros HG. revert st. induction members as [|v members IH]; intros st Hinv.
  - done.
  - rewrite holderPass_cons. by apply IH, handleHolder_weeks.
Qed.

(** From a fresh state, the turn of [u] pushes on one list at most. *)
Lemma handleHolder_one_list u tracking :
  let '(_, rm, gr, sk) := view u (step (fresh tracking) u) in
  (rm = [] ∧ gr = []) ∨ (rm = [] ∧ sk = []) ∨ (gr = [] ∧ sk = []).
Proof.
  unfold handleHolder, view, fresh; simpl.
  repeat (first [ case_decide | case_match ]); simpl; auto.
Qed.

(** From a fresh state, the turn of [u] removes nobody when the counter of
    [u], once advanced, is within the grace length. *)
Lemma handleHolder_no_removal u tracking :
  0 < G → (∀ r, tracking !! u = Some r → weeksOut r + 1 ≤ G) →
  let '(rec, rm, _, _) := view u (step (fresh tracking) u) in
  rm = [] ∧ (tracking = ∅ → ∀ r, rec = Some r → weeksOut r = 1).
Proof.
  intros HG Hle. unfold handleHolder, view, fresh; simpl.
  assert (∀ r0 : GraceRecord, (∅ : gmap string GraceRecord) !! u = Some r0 →
                              weeksOut r0 = 1) as Hempty.
  { intros r0. by rewrite lookup_empty. }
  destruct (decide (u ∈ qualifiedUserIds)) as [Hq|Hnq]; simpl.
  { split; [done|]. by intros ->. }
  destruct (fetch u) as [m|]; simpl; [|split; [done|by intros ->]].
  destruct (decide (roles_some m PROTECTED_ROLES_IDS)) as [Hp|Hnp]; simpl.
  { split; [done|]. by intros ->. }
  rewrite decide_True by done.
  destruct (tracking !! u) as [r|] eqn:Hrec.
  - rewrite decide_False by (specialize (Hle r eq_refl); lia). simpl.
    split; [done|]. intros ->. by rewrite lookup_empty in Hrec.
  - simpl. split; [done|]. intros _ r. rewrite lookup_insert_eq.
    by intros [= <-].
Qed.
End HolderPassInvariants.

(** Without grace period the removals do not depend on the grace file. *)
Lemma holderPass_immediate P reason fetch removeRole qualified ts members st st' :
  rolesRemoved st = rolesRemoved st' →
  rolesRemoved (holderPass P 0 reason fetch removeRole qualified ts members st)
  = rolesRemoved (holderPass P 0 reason fetch removeRole qualified ts members st').
Proof.
  revert st st'. induction members as [|v members IH]; intros st st' Heq; [done|].
  rewrite !holderPass_cons. apply IH. unfold handleHolder.
  repeat (first [ case_decide | case_match ]); simpl; try lia; congruence.
Qed.

Lemma removedFor_all_nil l : (∀ u, removedFor u l = []) → l = [].
Proof.
  destruct l as [|e l]; [done|]. intros Hall.
  specialize (Hall (Removed.userId e)). unfold removedFor in Hall.
  by rewrite filter_cons, decide_True in Hall.
Qed.

Lemma exclusive_intro (A B C D : Prop) :
  (A → ¬ B ∧ ¬ C ∧ ¬ D) →
  (¬ B ∧ ¬ C) ∨ (¬ B ∧ ¬ D) ∨ (¬ C ∧ ¬ D) →
  exclusive A B C D.
Proof. unfold exclusive. tauto. Qed.

Lemma elem_of_mentionOf_ids u (users : list UserData) :
  u ∈ Mention.userId <$> (mentionOf <$> users) → u ∈ userId <$> users.
Proof. by rewrite <-list_fmap_compose. Qed.

(** In a pass over distinct holders from a fresh state, a user gets entries
    on one list at most, and a qualified user on none. *)
Lemma holderPass_lists P G reason fetch removeRole qualified ts members tracking u :
  NoDup members →
  let st := holderPass P G reason fetch removeRole qualified ts members
              (fresh tracking) in
  let R := u ∈ Removed.userId <$> rolesRemoved st in
  let Gr := u ∈ GraceUser.userId <$> graceUsers st in
  let Sk := u ∈ Skipped.userId <$> protectedSkipped st in
  (u ∈ qualified → ¬ R ∧ ¬ Gr ∧ ¬ Sk) ∧
  ((¬ R ∧ ¬ Gr) ∨ (¬ R ∧ ¬ Sk) ∨ (¬ Gr ∧ ¬ Sk)).
Proof.
  intros Hnd st R Gr Sk. subst R Gr Sk.
  rewrite <-!removedFor_nil_iff, <-!graceFor_nil_iff, <-!skippedFor_nil_iff.
  destruct (decide (u ∈ members ∧ u ∉ qualified)) as [[Hu Hnq]|Hother].
  - pose proof (holderPass_view P G reason fetch removeRole qualified ts
                  u members (fresh tracking) Hnd Hu) as Hv.
    pose proof (handleHolder_one_list P G reason fetch removeRole qualified ts
                  u tracking) as Hone.
    rewrite <-Hv in Hone. unfold view in Hone. fold st in Hone.
    split; [done|]. exact Hone.
  - assert (u ∉ members ∨ u ∈ qualified) as Hu.
    { destruct (decide (u ∈ members)); [|by left].
      destruct (decide (u ∈ qualified)); [by right|tauto]. }
    pose proof (holderPass_untouched P G reason fetch removeRole qualified ts
                  u members (fresh tracking) Hu) as Hv.
    unfold view in Hv. fold st in Hv. injection Hv as _ -> -> ->.
    split; [done|]. by left.
Qed.

(** ** The legacy revision *)

Lemma legacy_top30Pass users tracking added :
  Legacy.top30Pass users tracking added =
    (foldl (λ t user, delete (userId user) t) tracking users,
     added ++ (mentionOf <$>
                 filter (λ user, ¬ roles_has (member user) Legacy.HIERARCH_ROLE_ID)
                        users)).
Proof.
  revert tracking added.
  induction users as [|user users IH]; intros tracking added; simpl.
  - by rewrite app_nil_r.
  - rewrite clearGrace_delete, filter_cons.
    destruct (decide (roles_has (member user) Legacy.HIERARCH_ROLE_ID)).
    + rewrite IH. by rewrite decide_False by tauto.
    + rewrite IH. rewrite decide_True by done.
      by rewrite fmap_cons, <-app_assoc.
Qed.

Lemma legacy_specialPass users tracking :
  Legacy.specialPass users tracking
  = foldl (λ t user, delete (userId user) t) tracking users.
Proof.
  unfold Legacy.specialPass. revert tracking.
  induction users as [|user users IH]; intros tracking; simpl; [done|].
  by rewrite clearGrace_delete, IH.
Qed.

Lemma lookup_foldl_delete (users : list UserData)
    (tracking : gmap string GraceRecord) u :
  foldl (λ t user, delete (userId user) t) tracking users !! u
  = if decide (u ∈ userId <$> users) then None else tracking !! u.
Proof.
  revert tracking. induction users as [|user users IH]; intros tracking.
  - change (userId <$> []) with (@nil string). simpl foldl.
    destruct (decide (u ∈ [])) as [Hin|]; [by apply elem_of_nil in Hin|done].
  - simpl foldl. rewrite IH, fmap_cons.
    destruct (decide (u = userId user)) as [->|Hne].
    + rewrite lookup_delete_eq, (decide_True (P := _ ∈ _ :: _)) by (by left).
      by destruct (decide (userId user ∈ userId <$> users)).
    + rewrite lookup_delete_ne by done.
      destruct (decide (u ∈ userId <$> users)) as [Hin|Hnin].
      * by rewrite decide_True by (by right).
      * rewrite decide_False; [done|]. intros [?|?]%elem_of_cons; done.
Qed.

(** What a completed legacy run is made of. *)
Lemma legacy_run_inv G guild top30Regular activeSpecialRoles ts graceFile
    logData graceFile' :
  Legacy.manageRolesWith G guild top30Regular activeSpecialRoles ts graceFile
    = Some (logData, graceFile') →
  ∃ members tracking,
    let st := holderPass Legacy.PROTECTED_ROLES_IDS G "Not in top 30"
                (members_fetch guild) (λ _, true)
                (Legacy.activeUsers top30Regular activeSpecialRoles) ts members
                (fresh tracking) in
    roles_fetch_hierarch guild = Some members ∧
    (∀ u, tracking !! u =
          if decide (u ∈ Legacy.activeUsers top30Regular activeSpecialRoles)
          then None else graceFile !! u) ∧
    Legacy.LogData.rolesAdded logData =
      mentionOf <$>
        filter (λ user, ¬ roles_has (member user) Legacy.HIERARCH_ROLE_ID)
               top30Regular ∧
    Legacy.LogData.rolesRemoved logData = rolesRemoved st ∧
    Legacy.LogData.graceUsers logData = graceUsers st ∧
    Legacy.LogData.protectedSkipped logData = protectedSkipped st ∧
    graceFile' = graceTracking st.
Proof.
  unfold Legacy.manageRolesWith.
  destruct (roles_fetch_hierarch guild) as [members|]; [|done].
  rewrite legacy_top30Pass, legacy_specialPass. intros [= <- <-].
  eexists members, _. simpl. split; [done|]. split; [|done].
  intros u. rewrite !lookup_foldl_delete. unfold Legacy.activeUsers.
  destruct (decide (u ∈ list_to_set _)) as [Hin|Hnin].
  - rewrite elem_of_list_to_set, fmap_app, elem_of_app in Hin.
    destruct (decide (u ∈ userId <$> activeSpecialRoles)); [done|].
    destruct Hin; [|done]. by rewrite decide_True.
  - rewrite elem_of_list_to_set, fmap_app, elem_of_app in Hnin.
    rewrite !decide_False by tauto. done.
Qed.

Lemma bounded_weeksInvariant G removeRole (tracking graceFile : gmap string GraceRecord) :
  bounded G graceFile →
  (∀ u, tracking !! u = None ∨ tracking !! u = graceFile !! u) →
  weeksInvariant G removeRole tracking.
Proof.
  intros Hb Hsub u r Hu. destruct (Hsub u) as [Hn|He]; [congruence|].
  rewrite He in Hu. apply Hb in Hu. split; [lia|left; lia].
Qed.

Lemma weeksInvariant_bounded G removeRole (tracking : gmap string GraceRecord) :
  (∀ u, removeRole u = true) → weeksInvariant G removeRole tracking →
  bounded G tracking.
Proof.
  intros Hrm Hinv u r Hu. destruct (Hinv u r Hu) as [? [?|Hf]]; [lia|].
  rewrite Hrm in Hf. discriminate.
Qed.

(** A legacy run keeps the week counters within the grace length. *)
Lemma legacy_run_bounded G guild top30Regular activeSpecialRoles ts graceFile
    logData graceFile' :
  0 < G → bounded G graceFile →
  Legacy.manageRolesWith G guild top30Regular activeSpecialRoles ts graceFile
    = Some (logData, graceFile') →
  bounded G graceFile'.
Proof.
  intros HG Hb (members & tracking & _ & Hlook & _ & _ & _ & _ & ->)%legacy_run_inv.
  apply (weeksInvariant_bounded G (λ _, true)); [done|].
  apply holderPass_weeks; [done|]. simpl.
  apply (bounded_weeksInvariant G _ _ graceFile); [done|].
  intros u. rewrite Hlook. case_decide; auto.
Qed.

(** The legacy revision never removes, nor tracks, a protected user. *)
Lemma legacy_protected_untouched G guild top30Regular activeSpecialRoles ts
    graceFile logData graceFile' u :
  protectedUser Legacy.PROTECTED_ROLES_IDS guild u →
  Legacy.manageRolesWith G guild top30Regular activeSpecialRoles ts graceFile
    = Some (logData, graceFile') →
  (u ∉ Removed.userId <$> Legacy.LogData.rolesRemoved logData) ∧
  (u ∉ GraceUser.userId <$> Legacy.LogData.graceUsers logData) ∧
  (graceFile' !! u = None ∨ graceFile' !! u = graceFile !! u).
Proof.
  unfold protectedUser. destruct (members_fetch guild u) as [m|] eqn:Hf; [|done].
  intros Hp (members & tracking & _ & Hlook & _ & Hrem & Hgr & _ & ->)%legacy_run_inv.
  simpl in *. rewrite Hrem, Hgr.
  rewrite <-removedFor_nil_iff, <-graceFor_nil_iff.
  edestruct holderPass_protected as (-> & -> & ->); [exact Hf|exact Hp|].
  split; [done|]. split; [done|]. simpl. rewrite Hlook. case_decide; auto.
Qed.

Section EngineRuns.
Variable HIERARCH_ROLE_ID : RoleId.
Variable PROTECTED_ROLES_IDS : list RoleId.

Local Abbreviation run := (manageRolesWith HIERARCH_ROLE_ID PROTECTED_ROLES_IDS).
Local Abbreviation runs := (manageRolesSeq HIERARCH_ROLE_ID PROTECTED_ROLES_IDS).
Local Abbreviation printed := (skippedProtected HIERARCH_ROLE_ID PROTECTED_ROLES_IDS).
Local Abbreviation turn G guild q ts :=
  (handleHolder PROTECTED_ROLES_IDS G "Not qualified" (members_fetch guild)
     (roles_remove guild) (qualifiedUserIds q) ts).

Lemma run_protected G guild q ts graceFile logData graceFile' u :
  protectedUser PROTECTED_ROLES_IDS guild u →
  run G guild q ts graceFile = Completed logData graceFile' →
  (u ∉ Removed.userId <$> LogData.rolesRemoved logData) ∧
  (u ∉ GraceUser.userId <$> LogData.graceUsers logData) ∧
  (graceFile' !! u = None ∨ graceFile' !! u = graceFile !! u).
Proof.
  unfold protectedUser. destruct (members_fetch guild u) as [m|] eqn:Hf; [|done].
  intros Hp (members & tracking & _ & Hlook & _ & Hrem & Hgr & _ & ->)
    %run_Completed_inv.
  rewrite Hrem, Hgr. rewrite <-removedFor_nil_iff, <-graceFor_nil_iff.
  edestruct holderPass_protected as (-> & -> & ->); [exact Hf|exact Hp|].
  split; [done|]. split; [done|]. simpl. rewrite Hlook. case_decide; auto.
Qed.

(** C4: over any number of consecutive runs in each of which [u] is
    fetched with a protected role, whatever the mentions, no completed run
    has [u] among its removals or its grace entries, and the record of [u]
    in the grace file is never created nor advanced: after each run it is
    absent or the one the first run read. *)
Theorem protected_never_removed_nor_tracked G rs graceFile u :
  Forall (λ r, protectedUser PROTECTED_ROLES_IDS (run_guild r) u) rs →
  Forall (λ o, ∀ logData graceFile',
                 o = Completed logData graceFile' →
                 (u ∉ Removed.userId <$> LogData.rolesRemoved logData) ∧
                 (u ∉ GraceUser.userId <$> LogData.graceUsers logData) ∧
                 (graceFile' !! u = None ∨ graceFile' !! u = graceFile !! u))
         (runs G rs graceFile).1 ∧
  ((runs G rs graceFile).2 !! u = None ∨
   (runs G rs graceFile).2 !! u = graceFile !! u).
Proof.
  revert graceFile. induction rs as [|r rs IH]; intros graceFile Hall.
  - simpl. split; [constructor|by right].
  - apply Forall_cons in Hall as [Hr Hall]. simpl.
    set (o := run G (run_guild r) (run_qualified r) (run_timestamp r) graceFile).
    specialize (IH (graceFileOf o graceFile) Hall).
    destruct (runs G rs (graceFileOf o graceFile)) as [os final] eqn:Hrest.
    simpl in *. destruct IH as [IHos IHfinal].
    assert (graceFileOf o graceFile !! u = None ∨
            graceFileOf o graceFile !! u = graceFile !! u) as Hstep.
    { destruct o as [logData graceFile'| |] eqn:Ho; simpl; [|by right..].
      by destruct (run_protected _ _ _ _ _ _ _ _ Hr Ho) as (_ & _ & ?). }
    split.
    + constructor.
      * intros logData graceFile' Ho. by eapply run_protected.
      * eapply Forall_impl; [exact IHos|]. simpl.
        intros o' Ho' logData graceFile' ->.
        destruct (Ho' _ _ eq_refl) as (? & ? & Hrec). split; [done|].
        split; [done|]. destruct Hrec as [?|Hrec]; [by left|].
        rewrite Hrec. exact Hstep.
    + destruct IHfinal as [?|Hrec]; [by left|]. rewrite Hrec. exact Hstep.
Qed.

(** C7: in a completed run over distinct holders no user is on two of the
    lists [rolesAdded], [rolesRemoved], [graceUsers] and the protected
    users skipped; the current engine prints the skipped users, the legacy
    revision logs them as [protectedSkipped]. *)
Theorem output_lists_disjoint G guild ts graceFile u :
  holdersDistinct guild →
  (∀ q logData graceFile',
     run G guild q ts graceFile = Completed logData graceFile' →
     exclusive (u ∈ Mention.userId <$> LogData.rolesAdded logData)
               (u ∈ Removed.userId <$> LogData.rolesRemoved logData)
               (u ∈ GraceUser.userId <$> LogData.graceUsers logData)
               (u ∈ Skipped.userId <$> printed G guild q ts graceFile)) ∧
  (∀ top30Regular activeSpecialRoles logData graceFile',
     Legacy.manageRolesWith G guild top30Regular activeSpecialRoles ts graceFile
       = Some (logData, graceFile') →
     exclusive (u ∈ Mention.userId <$> Legacy.LogData.rolesAdded logData)
               (u ∈ Removed.userId <$> Legacy.LogData.rolesRemoved logData)
               (u ∈ GraceUser.userId <$> Legacy.LogData.graceUsers logData)
               (u ∈ Skipped.userId <$> Legacy.LogData.protectedSkipped logData)).
Proof.
  intros Hdistinct. unfold holdersDistinct in Hdistinct. split.
  - intros q logData graceFile'
      (members & tracking & Hrole & _ & Hadd & Hrem & Hgr & Hsk & _)
      %run_Completed_inv.
    rewrite Hrole in Hdistinct. rewrite Hadd, Hrem, Hgr, Hsk.
    pose proof (holderPass_lists PROTECTED_ROLES_IDS G "Not qualified"
                  (members_fetch guild) (roles_remove guild)
                  (qualifiedUserIds q) ts members tracking u Hdistinct)
      as [Hq Hone].
    apply exclusive_intro; [|exact Hone].
    intros Hin%elem_of_mentionOf_ids. apply Hq.
    apply elem_of_list_to_set.
    apply list_elem_of_fmap in Hin as (user & -> & Huser%list_elem_of_filter).
    apply list_elem_of_fmap_2. tauto.
  - intros top30Regular activeSpecialRoles logData graceFile'
      (members & tracking & Hrole & _ & Hadd & Hrem & Hgr & Hsk & _)
      %legacy_run_inv.
    simpl in *. rewrite Hrole in Hdistinct. rewrite Hadd, Hrem, Hgr, Hsk.
    pose proof (holderPass_lists Legacy.PROTECTED_ROLES_IDS G "Not in top 30"
                  (members_fetch guild) (λ _, true)
                  (Legacy.activeUsers top30Regular activeSpecialRoles)
                  ts members tracking u Hdistinct)
      as [Hq Hone].
    apply exclusive_intro; [|exact Hone].
    intros Hin%elem_of_mentionOf_ids. apply Hq.
    apply elem_of_list_to_set.
    apply list_elem_of_fmap in Hin as (user & -> & Huser%list_elem_of_filter).
    apply list_elem_of_fmap_2. apply elem_of_app. tauto.
Qed.
End EngineRuns.

Section EngineStore.
Variable HIERARCH_ROLE_ID : RoleId.
Variable PROTECTED_ROLES_IDS : list RoleId.

Local Abbreviation run := (manageRolesWith HIERARCH_ROLE_ID PROTECTED_ROLES_IDS).
Local Abbreviation runs := (manageRolesSeq HIERARCH_ROLE_ID PROTECTED_ROLES_IDS).
Local Abbreviation printed := (skippedProtected HIERARCH_ROLE_ID PROTECTED_ROLES_IDS).
Local Abbreviation turn G guild q ts :=
  (handleHolder PROTECTED_ROLES_IDS G "Not qualified" (members_fetch guild)
     (roles_remove guild) (qualifiedUserIds q) ts).

(** A completed run keeps the week counters at 1 or more, and within the
    grace length but for the holders whose role removal rejected. *)
Lemma run_weeks G guild q ts graceFile logData graceFile' :
  0 < G → bounded G graceFile →
  run G guild q ts graceFile = Completed logData graceFile' →
  weeksInvariant G (roles_remove guild) graceFile'.
Proof.
  intros HG Hb (members & tracking & _ & Hlook & _ & _ & _ & _ & ->)
    %run_Completed_inv.
  apply holderPass_weeks; [done|]. simpl.
  apply (bounded_weeksInvariant G _ _ graceFile); [done|].
  intros u. rewrite Hlook. case_decide; auto.
Qed.

(** In a completed run over distinct holders that removes nobody whose
    advanced counter is within the grace length, nobody is removed when
    that is so for every record. *)
Lemma run_no_removal G guild q ts graceFile logData graceFile' :
  0 < G → holdersDistinct guild →
  (∀ u r, graceFile !! u = Some r → weeksOut r + 1 ≤ G) →
  run G guild q ts graceFile = Completed logData graceFile' →
  LogData.rolesRemoved logData = [] ∧
  (graceFile = ∅ → ∀ u r, graceFile' !! u = Some r → weeksOut r = 1).
Proof.
  intros HG Hdistinct Hle Hrun.
  destruct (run_Completed_inv _ _ _ _ _ _ _ _ _ Hrun) as (members & _ & Hrole & _).
  unfold holdersDistinct in Hdistinct. rewrite Hrole in Hdistinct.
  assert (∀ u, removedFor u (LogData.rolesRemoved logData) = [] ∧
               (graceFile = ∅ → ∀ r, graceFile' !! u = Some r → weeksOut r = 1))
    as Hall.
  { intros u. destruct (decide (u ∈ members ∧ u ∉ qualifiedUserIds q))
      as [[Hu Hnq]|Hother].
    - pose proof (run_view_holder _ _ _ _ _ _ _ _ _ _ _ Hrun Hrole Hdistinct
                    Hu Hnq) as Hv.
      pose proof (handleHolder_no_removal PROTECTED_ROLES_IDS G "Not qualified"
                    (members_fetch guild) (roles_remove guild)
                    (qualifiedUserIds q) ts u graceFile HG (Hle u)) as Hno.
      rewrite <-Hv in Hno. exact Hno.
    - assert (u ∉ members ∨ u ∈ qualifiedUserIds q) as Hu.
      { destruct (decide (u ∈ members)); [|by left].
        destruct (decide (u ∈ qualifiedUserIds q)); [by right|tauto]. }
      pose proof (run_view_other _ _ _ _ _ _ _ _ _ _ _ Hrun Hrole Hu) as Hv.
      injection Hv as Hrec Hrem _ _. split; [done|].
      intros -> r. rewrite Hrec, lookup_empty. by case_decide. }
  split.
  - apply removedFor_all_nil. intros u. apply Hall.
  - intros Hempty u. by apply Hall.
Qed.

(** C8, as the code has it: two completed runs on the same guild and the
    same qualified users, the second reading the grace file the first
    wrote, have the same [rolesAdded]; their [rolesRemoved] are the same
    when grace is disabled, and are both empty when the first run starts
    from an empty grace file and the grace length is 2 or more (as it is in
    the engine). *)
Theorem repeated_run_decisions G guild q t1 t2 s l1 s1 l2 s2 :
  run G guild q t1 s = Completed l1 s1 →
  run G guild q t2 s1 = Completed l2 s2 →
  LogData.rolesAdded l1 = LogData.rolesAdded l2 ∧
  (G = 0 → LogData.rolesRemoved l1 = LogData.rolesRemoved l2) ∧
  (2 ≤ G → s = ∅ → holdersDistinct guild →
   LogData.rolesRemoved l1 = [] ∧ LogData.rolesRemoved l2 = []).
Proof.
  intros Hr1 Hr2. split; [|split].
  - apply run_Completed_inv in Hr1 as (_ & _ & _ & _ & -> & _).
    apply run_Completed_inv in Hr2 as (_ & _ & _ & _ & -> & _). done.
  - intros ->.
    apply run_Completed_inv in Hr1 as (m1 & k1 & Hrole1 & _ & _ & -> & _).
    apply run_Completed_inv in Hr2 as (m2 & k2 & Hrole2 & _ & _ & -> & _).
    assert (m1 = m2) as -> by congruence.
    transitivity
      (rolesRemoved
         (holderPass PROTECTED_ROLES_IDS 0 "Not qualified" (members_fetch guild)
            (roles_remove guild) (qualifiedUserIds q) t1 m2 (fresh k2))).
    + by apply holderPass_immediate.
    + clear. generalize (fresh k2). induction m2 as [|v m2 IH]; intros st; [done|].
      rewrite !holderPass_cons.
      replace (handleHolder PROTECTED_ROLES_IDS 0 "Not qualified"
                 (members_fetch guild) (roles_remove guild)
                 (qualifiedUserIds q) t2 st v)
        with (handleHolder PROTECTED_ROLES_IDS 0 "Not qualified"
                (members_fetch guild) (roles_remove guild)
                (qualifiedUserIds q) t1 st v); [apply IH|].
      unfold handleHolder.
      repeat (first [ case_decide | case_match ]); simpl; try lia; done.
  - intros HG -> Hdistinct.
    destruct (run_no_removal G guild q t1 ∅ l1 s1) as [Hrem1 Hone];
      [lia|done| |done|].
    { intros u r. by rewrite lookup_empty. }
    split; [done|].
    destruct (run_no_removal G guild q t2 s1 l2 s2) as [Hrem2 _];
      [lia|done| |done|done].
    intros u r Hu. rewrite (Hone eq_refl u r Hu). lia.
Qed.

End EngineStore.

(** C9: when the Hierarch role is not found, [manageRoles] returns before any
    role is added or removed and before the grace file is written, but the
    handler then prints the success line and exits with status 0, as after a
    completed run. *)
Theorem missing_role_reported_as_success
    HIERARCH_ROLE_ID MEMBER_ROLE_ID PROTECTED_ROLES_IDS SPECIAL_ROLES_IDS
    guild mentionCount ts graceFile :
  roles_fetch_hierarch guild = None →
  ready HIERARCH_ROLE_ID MEMBER_ROLE_ID PROTECTED_ROLES_IDS SPECIAL_ROLES_IDS
        guild mentionCount ts graceFile
  = {| exitCode := 0; successLogged := true; graceFileAfter := graceFile;
       roleChanges := [] |}.
Proof.
  intros Hrole. unfold ready, manageRoles, manageRolesWith. by rewrite Hrole.
Qed.

(** ** Worked runs *)

Lemma sample_holder_quiet : holder Sample.steady "7".
Proof. unfold holder. simpl. split; compute_done. Defined.

Lemma sample_disqualified_quiet :
  disqualified Sample.PROTECTED Sample.steady Sample.qv "7" Sample.quiet.
Proof. repeat split; compute_done. Defined.

Lemma sample_bounded w : 1 ≤ w ≤ 2 → bounded 2 (Sample.file "t1" w).
Proof.
  intros Hw u r Hu. unfold Sample.file in Hu.
  apply lookup_singleton_Some in Hu as [_ <-]. simpl. exact Hw.
Defined.

(** Three quiet weeks of holder 7, from no record to the removal. *)
Lemma grace_expires_on_third_run_witness :
  (∅ : gmap string GraceRecord) !! "7" = None ∧
  ((∅ : gmap string GraceRecord) !! "7",
   removedFor "7" (LogData.rolesRemoved (Sample.logWith "t3" [] [Sample.expiry] [])),
   graceFor "7" (LogData.graceUsers (Sample.logWith "t3" [] [Sample.expiry] [])))
  = (None, [Sample.expiry], []).
Proof.
  destruct (grace_expires_on_third_run Sample.HIERARCH Sample.PROTECTED
              Sample.steady Sample.steady Sample.steady
              Sample.qv Sample.qv Sample.qv "t1" "t2" "t3" ∅
              (Sample.logWith "t1" [] [] [Sample.graceEntry 1 1])
              (Sample.file "t1" 1)
              (Sample.logWith "t2" [] [] [Sample.graceEntry 2 0])
              (Sample.file "t1" 2)
              (Sample.logWith "t3" [] [Sample.expiry] []) ∅
              "7" Sample.quiet Sample.quiet Sample.quiet)
    as (_ & _ & Hthird).
  - reflexivity.
  - exact sample_holder_quiet.
  - exact sample_disqualified_quiet.
  - exact sample_holder_quiet.
  - exact sample_disqualified_quiet.
  - exact sample_holder_quiet.
  - exact sample_disqualified_quiet.
  - vm_compute. reflexivity.
  - vm_compute. reflexivity.
  - vm_compute. reflexivity.
  - split; [reflexivity|exact Hthird].
Defined.

(** Three Regular users, 50, 40 and 40 mentions: the threshold is 40. *)
Lemma threshold_is_lowest_qualified_regular_witness :
  threshold (determineQualified
               [Sample.regular "1" 50; Sample.regular "2" 40; Sample.regular "3" 40]
               [] [])
  ≤ mentionCount (Sample.regular "1" 50).
Proof.
  apply (threshold_is_lowest_qualified_regular
           [Sample.regular "1" 50; Sample.regular "2" 40; Sample.regular "3" 40]
           [] []).
  - unfold descending. repeat constructor; simpl; lia.
  - simpl. left.
Defined.

(** C2 as worded fails: with a single Regular user (fewer than
    [TOP_COUNT]) of 5 mentions the threshold is 5, not 0. *)
Lemma threshold_not_zero_below_top_count :
  length [Sample.regular "1" 5] < TOP_COUNT ∧
  threshold (determineQualified [Sample.regular "1" 5] [] []) = 5 ∧
  threshold (determineQualified [Sample.regular "1" 5] [] []) ≠ 0.
Proof. split; [unfold TOP_COUNT; simpl; lia|]. split; [reflexivity|discriminate]. Qed.

(** Without Regular users a Special user with one mention qualifies. *)
Lemma qualifiedSpecial_beats_threshold_witness :
  threshold (determineQualified [] [Sample.special "2" 1] []) = 0 ∧
  Sample.special "2" 1 ∈ qualifiedSpecial (determineQualified [] [Sample.special "2" 1] []).
Proof.
  destruct (qualifiedSpecial_beats_threshold [] [Sample.special "2" 1] [])
    as (_ & _ & Hnone).
  destruct (Hnone eq_refl) as [Hzero Hall]. split; [exact Hzero|].
  apply Hall; [left|simpl; lia].
Defined.

(** The protected holder 8, never mentioned, over three runs. *)
Lemma protected_never_removed_nor_tracked_witness :
  (manageRolesSeq Sample.HIERARCH Sample.PROTECTED GRACE_PERIOD_WEEKS
     [Sample.theRun "t1" Sample.steady; Sample.theRun "t2" Sample.steady;
      Sample.theRun "t3" Sample.steady] ∅).2 !! "8" = None ∨
  (manageRolesSeq Sample.HIERARCH Sample.PROTECTED GRACE_PERIOD_WEEKS
     [Sample.theRun "t1" Sample.steady; Sample.theRun "t2" Sample.steady;
      Sample.theRun "t3" Sample.steady] ∅).2 !! "8"
  = (∅ : gmap string GraceRecord) !! "8".
Proof.
  apply (protected_never_removed_nor_tracked Sample.HIERARCH Sample.PROTECTED
           GRACE_PERIOD_WEEKS
           [Sample.theRun "t1" Sample.steady; Sample.theRun "t2" Sample.steady;
            Sample.theRun "t3" Sample.steady] ∅ "8").
  repeat constructor; compute_done.
Defined.

(** The run on the calm guild completes (and adds user 1). *)
Lemma added_are_qualified_without_role_witness :
  ∃ logData graceFile',
    manageRolesWith Sample.HIERARCH Sample.PROTECTED GRACE_PERIOD_WEEKS
      Sample.calm Sample.q "t1" ∅ = Completed logData graceFile'.
Proof.
  apply (added_are_qualified_without_role Sample.HIERARCH Sample.PROTECTED
           GRACE_PERIOD_WEEKS Sample.calm Sample.q "t1" ∅).
  - simpl. eexists. reflexivity.
  - intros user _ _. reflexivity.
Defined.


(** Holder 7 is on the grace list of the run, and on no other. *)
Lemma output_lists_disjoint_witness :
  exclusive
    ("7" ∈ Mention.userId <$>
       LogData.rolesAdded
         (Sample.logWith "t1" [Sample.user1] [] [Sample.graceEntry 1 1]))
    ("7" ∈ Removed.userId <$>
       LogData.rolesRemoved
         (Sample.logWith "t1" [Sample.user1] [] [Sample.graceEntry 1 1]))
    ("7" ∈ GraceUser.userId <$>
       LogData.graceUsers
         (Sample.logWith "t1" [Sample.user1] [] [Sample.graceEntry 1 1]))
    ("7" ∈ Skipped.userId <$>
       skippedProtected Sample.HIERARCH Sample.PROTECTED GRACE_PERIOD_WEEKS
         Sample.calm Sample.q "t1" ∅).
Proof.
  destruct (output_lists_disjoint Sample.HIERARCH Sample.PROTECTED
              GRACE_PERIOD_WEEKS Sample.calm "t1" ∅ "7") as [Hengine _].
  - unfold holdersDistinct. simpl. compute_done.
  - apply (Hengine Sample.q _ (Sample.file "t1" 1)). vm_compute. reflexivity.
Defined.

(** Two runs in a row from an empty grace file: nobody is removed. *)
Lemma repeated_run_decisions_witness :
  LogData.rolesAdded (Sample.logWith "t1" [] [] [Sample.graceEntry 1 1])
  = LogData.rolesAdded (Sample.logWith "t2" [] [] [Sample.graceEntry 2 0]) ∧
  LogData.rolesRemoved (Sample.logWith "t1" [] [] [Sample.graceEntry 1 1]) = [] ∧
  LogData.rolesRemoved (Sample.logWith "t2" [] [] [Sample.graceEntry 2 0]) = [].
Proof.
  destruct (repeated_run_decisions Sample.HIERARCH Sample.PROTECTED
              GRACE_PERIOD_WEEKS Sample.steady Sample.qv "t1" "t2" ∅
              (Sample.logWith "t1" [] [] [Sample.graceEntry 1 1])
              (Sample.file "t1" 1)
              (Sample.logWith "t2" [] [] [Sample.graceEntry 2 0])
              (Sample.file "t1" 2))
    as (Hadded & _ & Hremoved).
  - vm_compute. reflexivity.
  - vm_compute. reflexivity.
  - split; [exact Hadded|]. apply Hremoved.
    + unfold GRACE_PERIOD_WEEKS. lia.
    + reflexivity.
    + unfold holdersDistinct. simpl. compute_done.
Defined.

(** C8 as worded fails: holder 7 is two weeks out; the first of two runs on
    the same guild and the same qualified users removes it, the second,
    reading the grace file the first wrote, starts a new grace period and
    removes nobody. *)
Lemma repeated_run_removals_differ :
  manageRoles Sample.HIERARCH Sample.PROTECTED Sample.steady Sample.qv "t3"
    (Sample.file "t1" 2)
  = Completed (Sample.logWith "t3" [] [Sample.expiry] []) ∅ ∧
  manageRoles Sample.HIERARCH Sample.PROTECTED Sample.steady Sample.qv "t3" ∅
  = Completed (Sample.logWith "t3" [] [] [Sample.graceEntry 1 1])
      (Sample.file "t3" 1) ∧
  LogData.rolesRemoved (Sample.logWith "t3" [] [Sample.expiry] [])
  ≠ LogData.rolesRemoved (Sample.logWith "t3" [] [] [Sample.graceEntry 1 1]).
Proof.
  split; [vm_compute; reflexivity|]. split; [vm_compute; reflexivity|].
  discriminate.
Qed.


(** C1 as worded fails: on a guild where [roles.remove] rejects, holder 7,
    without record, is disqualified in three consecutive completed runs; the
    third run has no removal entry for it and keeps its record, with
    [weeksOut = 3]. *)
Lemma rejected_removal_logs_no_expiry :
  (holder Sample.stubborn "7" ∧
   disqualified Sample.PROTECTED Sample.stubborn Sample.qv "7" Sample.quiet) ∧
  manageRoles Sample.HIERARCH Sample.PROTECTED Sample.stubborn Sample.qv "t1" ∅
  = Completed (Sample.logWith "t1" [] [] [Sample.graceEntry 1 1])
      (Sample.file "t1" 1) ∧
  manageRoles Sample.HIERARCH Sample.PROTECTED Sample.stubborn Sample.qv "t2"
    (Sample.file "t1" 1)
  = Completed (Sample.logWith "t2" [] [] [Sample.graceEntry 2 0])
      (Sample.file "t1" 2) ∧
  manageRoles Sample.HIERARCH Sample.PROTECTED Sample.stubborn Sample.qv "t3"
    (Sample.file "t1" 2)
  = Completed (Sample.logWith "t3" [] [] []) (Sample.file "t1" 3) ∧
  removedFor "7" (LogData.rolesRemoved (Sample.logWith "t3" [] [] [])) = [] ∧
  Sample.file "t1" 3 !! "7"
  = Some {| g_username := "Quiet"; weeksOut := 3; firstWeekOut := "t1" |}.
Proof.
  split.
  { split; [unfold holder; simpl; split; compute_done|].
    repeat split; compute_done. }
  repeat split; vm_compute; reflexivity.
Qed.


(** The handler on a guild without the Hierarch role. *)
Lemma missing_role_reported_as_success_witness :
  ready Sample.HIERARCH Sample.MEMBER Sample.PROTECTED Sample.SPECIAL
        Sample.roleless Sample.mentions "t1" (Sample.file "t0" 1)
  = {| exitCode := 0; successLogged := true;
       graceFileAfter := Sample.file "t0" 1; roleChanges := [] |}.
Proof.
  apply (missing_role_reported_as_success Sample.HIERARCH Sample.MEMBER
           Sample.PROTECTED Sample.SPECIAL Sample.roleless Sample.mentions "t1"
           (Sample.file "t0" 1)).
  reflexivity.
Defined.

(** * More of the code *)

(** ** Scanning the channels *)

Lemma bump_keys id (m : list (UserId * nat)) :
  (bump id m).*1 = if decide (id ∈ m.*1) then m.*1 else m.*1 ++ [id].
Proof.
  induction m as [|[k c] m IH].
  - destruct (decide (id ∈ [].*1)) as [Hin|]; [by apply elem_of_nil in Hin|done].
  - simpl bump. rewrite (fmap_cons fst (k, c) m). simpl fst.
    destruct (decide (k = id)) as [->|Hne].
    + rewrite fmap_cons. simpl fst.
      by destruct (decide (id ∈ id :: m.*1)) as [|Hn]; [|destruct Hn; left].
    + rewrite fmap_cons, IH. simpl fst.
      destruct (decide (id ∈ m.*1)) as [Hin|Hnin].
      * by destruct (decide (id ∈ k :: m.*1)) as [|Hn]; [|destruct Hn; right].
      * destruct (decide (id ∈ k :: m.*1)) as [[?|?]%elem_of_cons|]; [congruence|done|done].
Qed.

Lemma bump_NoDup id (m : list (UserId * nat)) : NoDup m.*1 → NoDup (bump id m).*1.
Proof.
  intros Hnd. rewrite bump_keys. case_decide as Hin; [done|].
  apply NoDup_app. split; [done|]. split; [|apply NoDup_singleton].
  intros x Hx ->%list_elem_of_singleton. done.
Qed.

Lemma countOf_cons k k' c (m : list (UserId * nat)) :
  countOf k ((k', c) :: m) = (if decide (k' = k) then c else 0) + countOf k m.
Proof.
  unfold countOf. rewrite filter_cons. simpl. by destruct (decide (k' = k)).
Qed.

Lemma bump_countOf k id (m : list (UserId * nat)) :
  countOf k (bump id m) = countOf k m + (if decide (id = k) then 1 else 0).
Proof.
  induction m as [|[k' c] m IH].
  - simpl bump. rewrite countOf_cons. unfold countOf. simpl. lia.
  - simpl bump. destruct (decide (k' = id)) as [->|Hne].
    + rewrite !countOf_cons. destruct (decide (id = k)); lia.
    + rewrite !countOf_cons, IH. lia.
Qed.

Lemma tally_NoDup ids (m : list (UserId * nat)) :
  NoDup m.*1 → NoDup (foldl (λ acc id, bump id acc) m ids).*1.
Proof.
  revert m. induction ids as [|id ids IH]; intros m Hnd; simpl; [done|].
  by apply IH, bump_NoDup.
Qed.

Lemma tally_countOf k ids (m : list (UserId * nat)) :
  countOf k (foldl (λ acc id, bump id acc) m ids) = countOf k m + occurrences k ids.
Proof.
  unfold occurrences. revert m.
  induction ids as [|id ids IH]; intros m; simpl; [lia|].
  rewrite IH, bump_countOf, filter_cons.
  destruct (decide (id = k)); simpl; lia.
Qed.

Lemma tally_keys k ids (m : list (UserId * nat)) :
  k ∈ (foldl (λ acc id, bump id acc) m ids).*1 ↔ k ∈ m.*1 ∨ k ∈ ids.
Proof.
  revert m. induction ids as [|id ids IH]; intros m; simpl.
  - rewrite elem_of_nil. tauto.
  - rewrite IH, bump_keys, elem_of_cons.
    destruct (decide (id ∈ m.*1)) as [Hin|Hnin].
    + split; [tauto|]. intros [?|[->|?]]; tauto.
    + rewrite elem_of_app, list_elem_of_singleton. tauto.
Qed.

Lemma countOf_absent k (m : list (UserId * nat)) : k ∉ m.*1 → countOf k m = 0.
Proof.
  induction m as [|[k' c'] m IH]; intros Hk; [done|].
  rewrite fmap_cons in Hk. apply not_elem_of_cons in Hk as [Hne Hk].
  rewrite countOf_cons, decide_False by (simpl in Hne; congruence).
  by rewrite IH.
Qed.

Lemma countOf_entry k c (m : list (UserId * nat)) :
  NoDup m.*1 → (k, c) ∈ m → countOf k m = c.
Proof.
  induction m as [|[k' c'] m IH]; intros Hnd Hin.
  - by apply elem_of_nil in Hin.
  - rewrite fmap_cons in Hnd. apply NoDup_cons in Hnd as [Hk' Hnd].
    rewrite countOf_cons. apply elem_of_cons in Hin as [[= <- <-]|Hin].
    + rewrite decide_True by done. rewrite (countOf_absent k m Hk'). lia.
    + assert (k' ≠ k) as Hne.
      { intros ->. apply Hk'. by apply (list_elem_of_fmap_2' fst _ (k, c)). }
      by rewrite decide_False, IH by done.
Qed.

Lemma countOf_key k (m : list (UserId * nat)) :
  k ∈ m.*1 → ∃ c, (k, c) ∈ m.
Proof.
  intros ([k' c] & -> & Hin)%list_elem_of_fmap. by exists c.
Qed.

(** What one page, one channel and all channels add to the Map is the tally
    of the mentions of some of their messages that are not too old. *)
Lemma scanMessages_tally msgs (m : list (UserId * nat)) :
  ∃ counted,
    counted `sublist_of` filter (λ message, expired message = false) msgs ∧
    scanMessages msgs m
    = foldl (λ acc id, bump id acc) m (concat (mentions <$> counted)).
Proof.
  revert m. induction msgs as [|message msgs IH]; intros m; simpl.
  - exists []. by split.
  - destruct (expired message) eqn:Hexp.
    + exists []. split; [apply sublist_nil_l|done].
    + destruct (IH (foldl (λ acc id, bump id acc) m (mentions message)))
        as (counted & Hsub & ->).
      exists (message :: counted). split.
      * rewrite filter_cons, decide_True by done. by apply sublist_skip.
      * simpl. by rewrite foldl_app.
Qed.

Lemma scanPages_tally pages (m : list (UserId * nat)) :
  ∃ counted,
    counted `sublist_of`
      filter (λ message, expired message = false) (concat (messages <$> pages)) ∧
    scanPages pages m
    = foldl (λ acc id, bump id acc) m (concat (mentions <$> counted)).
Proof.
  revert m. induction pages as [|page pages IH]; intros m; simpl.
  - exists []. by split.
  - destruct (messages page) as [|message msgs] eqn:Hmsgs.
    + exists []. split; [apply sublist_nil_l|done].
    + rewrite filter_app.
      destruct (scanMessages_tally (message :: msgs) m) as (c1 & Hsub1 & Heq1).
      rewrite Heq1. destruct (lastExpired page).
      * exists c1. split; [by apply sublist_inserts_r|done].
      * destruct (IH (foldl (λ acc id, bump id acc) m (concat (mentions <$> c1))))
          as (c2 & Hsub2 & ->).
        exists (c1 ++ c2). split; [by apply sublist_app|].
        by rewrite fmap_app, concat_app, foldl_app.
Qed.

Lemma scanChannels_tally channels (m : list (UserId * nat)) :
  ∃ counted,
    counted `sublist_of` freshMessages channels ∧
    foldl (λ mentionCount channel,
             match channel with
             | None => mentionCount
             | Some pages => scanPages pages mentionCount
             end) m channels
    = foldl (λ acc id, bump id acc) m (concat (mentions <$> counted)).
Proof.
  unfold freshMessages. revert m.
  induction channels as [|[pages|] channels IH]; intros m; simpl.
  - exists []. by split.
  - rewrite fmap_app, concat_app, filter_app.
    destruct (scanPages_tally pages m) as (c1 & Hsub1 & ->).
    destruct (IH (foldl (λ acc id, bump id acc) m (concat (mentions <$> c1))))
      as (c2 & Hsub2 & ->).
    exists (c1 ++ c2). split; [by apply sublist_app|].
    by rewrite fmap_app, concat_app, foldl_app.
  - apply IH.
Qed.

(** What a tally from the empty Map holds. *)
Lemma tally_entries ids id c :
  (id, c) ∈ foldl (λ acc id, bump id acc) [] ids ↔
  c = occurrences id ids ∧ 1 ≤ c.
Proof.
  pose proof (tally_NoDup ids [] (NoDup_nil_2)) as Hnd.
  pose proof (tally_countOf id ids []) as Hcount.
  change (countOf id []) with 0 in Hcount. simpl in Hcount.
  assert (id ∈ ids ↔ 1 ≤ occurrences id ids) as Hocc.
  { unfold occurrences. clear. induction ids as [|x ids IH].
    - rewrite elem_of_nil. simpl. lia.
    - rewrite filter_cons, elem_of_cons. destruct (decide (x = id)); simpl.
      + split; [lia|]. by left.
      + rewrite IH. split; [intros [?|?]; [congruence|done]|tauto]. }
  split.
  - intros Hin. pose proof (countOf_entry _ _ _ Hnd Hin) as Hc.
    split; [congruence|]. rewrite <-Hc, Hcount. apply Hocc.
    assert (id ∈ (foldl (λ acc id, bump id acc) [] ids).*1) as Hkey.
    { by apply (list_elem_of_fmap_2' fst _ (id, c)). }
    apply tally_keys in Hkey as [Hnil|?]; [by apply elem_of_nil in Hnil|done].
  - intros [-> Hpos]. apply Hocc in Hpos.
    assert (id ∈ (foldl (λ acc id, bump id acc) [] ids).*1) as Hkey.
    { apply tally_keys. by right. }
    apply countOf_key in Hkey as [c Hin].
    by rewrite <-Hcount, (countOf_entry _ _ _ Hnd Hin).
Qed.

(** X1: the Map [scanChannelsForMentions] returns has distinct keys, and is
    the tally of the mentions of some of the messages that were not too old
    when looked at: an entry holds the number of those messages that mention
    the user, which is 1 at least. *)
Theorem scan_tallies_fresh_mentions channels :
  NoDup (scanChannelsForMentions channels).*1 ∧
  ∃ counted,
    counted `sublist_of` freshMessages channels ∧
    ∀ id c, (id, c) ∈ scanChannelsForMentions channels ↔
            c = occurrences id (concat (mentions <$> counted)) ∧ 1 ≤ c.
Proof.
  unfold scanChannelsForMentions.
  destruct (scanChannels_tally channels []) as (counted & Hsub & ->).
  split; [apply tally_NoDup, NoDup_nil_2|].
  exists counted. split; [done|]. intros id c. apply tally_entries.
Qed.

Lemma scanMessages_all msgs (m : list (UserId * nat)) :
  Forall (λ message, expired message = false) msgs →
  scanMessages msgs m = foldl (λ acc id, bump id acc) m (concat (mentions <$> msgs)).
Proof.
  revert m. induction msgs as [|message msgs IH]; intros m Hall; [done|].
  apply Forall_cons in Hall as [Hfresh Hall]. simpl.
  by rewrite Hfresh, foldl_app, IH.
Qed.

Lemma scanPages_all pages (m : list (UserId * nat)) :
  Forall (λ page, messages page ≠ [] ∧ lastExpired page = false ∧
                  Forall (λ message, expired message = false) (messages page))
         pages →
  scanPages pages m
  = foldl (λ acc id, bump id acc) m
      (concat (mentions <$> concat (messages <$> pages))).
Proof.
  revert m. induction pages as [|page pages IH]; intros m Hall; [done|].
  apply Forall_cons in Hall as [(Hne & Hlast & Hfresh) Hall]. simpl.
  destruct (messages page) as [|message msgs] eqn:Hmsgs; [done|].
  rewrite Hlast, IH, scanMessages_all by done.
  by rewrite fmap_app, concat_app, foldl_app.
Qed.

(** X2: when no page is empty and no message is too old, nothing is left
    out: every channel that is found is read to its last page, and the Map
    holds, for each user, the number of its messages that mention the
    user. *)
Theorem scan_counts_every_fresh_message channels u c :
  allFresh channels →
  (u, c) ∈ scanChannelsForMentions channels ↔
  c = occurrences u
        (concat (mentions <$> concat (messages <$> concat (omap id channels)))) ∧
  1 ≤ c.
Proof.
  intros Hall. rewrite <-tally_entries. unfold scanChannelsForMentions.
  generalize (@nil (UserId * nat)). unfold allFresh in Hall.
  induction channels as [|[pages|] channels IH]; intros m; [done| |].
  - simpl in *. apply Forall_app in Hall as [Hpages Hall].
    rewrite IH, scanPages_all by done.
    by rewrite fmap_app, concat_app, fmap_app, concat_app, foldl_app.
  - simpl in *. by apply IH.
Qed.

(** ** Sorting members into tiers *)

Section Tiers.
Variable M : RoleId.
Variables P S : list RoleId.
Variable guild : Guild.

Local Abbreviation isProtected := (λ u : UserData, roles_some (member u) P).
Local Abbreviation isSpecial :=
  (λ u : UserData, ¬ roles_some (member u) P ∧ roles_some (member u) S).
Local Abbreviation isRegular :=
  (λ u : UserData, ¬ roles_some (member u) P ∧ ¬ roles_some (member u) S).

Lemma categorizeLoop_cons id count entries acc :
  categorizeLoop M P S guild ((id, count) :: entries) acc
  = categorizeLoop M P S guild entries
      match userDataOf M guild (id, count) with
      | None => acc
      | Some u =>
        if decide (roles_some (member u) P) then
          {| regularMembers := regularMembers acc;
             specialMembers := specialMembers acc;
             protectedMembers := protectedMembers acc ++ [u] |}
        else if decide (roles_some (member u) S) then
          {| regularMembers := regularMembers acc;
             specialMembers := specialMembers acc ++ [u];
             protectedMembers := protectedMembers acc |}
        else
          {| regularMembers := regularMembers acc ++ [u];
             specialMembers := specialMembers acc;
             protectedMembers := protectedMembers acc |}
      end.
Proof.
  simpl. unfold userDataOf. simpl.
  destruct (members_fetch guild id) as [m|]; [|done].
  destruct (decide (roles_has m M)); [|done]. simpl.
  destruct (decide (roles_some m P)); [done|].
  by destruct (decide (roles_some m S)).
Qed.

Lemma categorizeLoop_lists entries acc :
  protectedMembers (categorizeLoop M P S guild entries acc)
  = protectedMembers acc ++ filter isProtected (omap (userDataOf M guild) entries) ∧
  specialMembers (categorizeLoop M P S guild entries acc)
  = specialMembers acc ++ filter isSpecial (omap (userDataOf M guild) entries) ∧
  regularMembers (categorizeLoop M P S guild entries acc)
  = regularMembers acc ++ filter isRegular (omap (userDataOf M guild) entries).
Proof.
  revert acc. induction entries as [|[id count] entries IH]; intros acc.
  - simpl. by rewrite !app_nil_r.
  - rewrite categorizeLoop_cons. cbn [omap list_omap].
    destruct (userDataOf M guild (id, count)) as [u|]; [|apply IH].
    rewrite !filter_cons.
    destruct (decide (roles_some (member u) P)) as [Hp|Hp].
    + destruct (IH {| regularMembers := regularMembers acc;
                      specialMembers := specialMembers acc;
                      protectedMembers := protectedMembers acc ++ [u] |})
        as (-> & -> & ->). simpl.
      rewrite !decide_False by tauto. by rewrite <-app_assoc.
    + destruct (decide (roles_some (member u) S)) as [Hs|Hs].
      * destruct (IH {| regularMembers := regularMembers acc;
                        specialMembers := specialMembers acc ++ [u];
                        protectedMembers := protectedMembers acc |})
          as (-> & -> & ->). simpl.
        rewrite decide_True, decide_False by tauto. by rewrite <-app_assoc.
      * destruct (IH {| regularMembers := regularMembers acc ++ [u];
                        specialMembers := specialMembers acc;
                        protectedMembers := protectedMembers acc |})
          as (-> & -> & ->). simpl.
        rewrite decide_False, decide_True by tauto. by rewrite <-app_assoc.
Qed.

Lemma categorizeMembers_lists entries :
  protectedMembers (categorizeMembers M P S guild entries)
  = filter isProtected (omap (userDataOf M guild) entries) ∧
  specialMembers (categorizeMembers M P S guild entries)
  = sort_desc (filter isSpecial (omap (userDataOf M guild) entries)) ∧
  regularMembers (categorizeMembers M P S guild entries)
  = sort_desc (filter isRegular (omap (userDataOf M guild) entries)).
Proof.
  unfold categorizeMembers. simpl.
  destruct (categorizeLoop_lists entries
              {| regularMembers := []; specialMembers := [];
                 protectedMembers := [] |}) as (-> & -> & ->).
  done.
Qed.

Lemma elem_of_sort_desc u l : u ∈ sort_desc l ↔ u ∈ l.
Proof. by rewrite sort_desc_Permutation. Qed.

(** X3: a user is on a list of [categorizeMembers] exactly when it is the
    object built for a Map entry whose member is fetched and has the Member
    role, and then on the Protected list if it has a protected role, else on
    the Special list if it has a special role, else on the Regular list. *)
Theorem categorizeMembers_tiers entries u :
  let c := categorizeMembers M P S guild entries in
  let built := ∃ entry, entry ∈ entries ∧ userDataOf M guild entry = Some u in
  (u ∈ protectedMembers c ↔ built ∧ roles_some (member u) P) ∧
  (u ∈ specialMembers c ↔
     built ∧ ¬ roles_some (member u) P ∧ roles_some (member u) S) ∧
  (u ∈ regularMembers c ↔
     built ∧ ¬ roles_some (member u) P ∧ ¬ roles_some (member u) S).
Proof.
  intros c built. subst c built.
  destruct (categorizeMembers_lists entries) as (-> & -> & ->).
  rewrite !elem_of_sort_desc, !list_elem_of_filter, !list_elem_of_omap.
  tauto.
Qed.

Lemma userDataOf_userId entry u : userDataOf M guild entry = Some u → userId u = entry.1.
Proof.
  unfold userDataOf. destruct (members_fetch guild entry.1); [|done].
  case_decide; [|done]. by intros [= <-].
Qed.

Lemma omap_userDataOf_ids entries :
  userId <$> omap (userDataOf M guild) entries `sublist_of` entries.*1.
Proof.
  induction entries as [|entry entries IH]; simpl; [done|].
  destruct (userDataOf M guild entry) as [u|] eqn:Hu; simpl.
  - rewrite (userDataOf_userId _ _ Hu). by apply sublist_skip.
  - by apply sublist_cons.
Qed.

Lemma tiers_Permutation (l : list UserData) :
  filter isRegular l ++ filter isSpecial l ++ filter isProtected l ≡ₚ l.
Proof.
  induction l as [|u l IH]; [done|]. rewrite !filter_cons.
  repeat case_decide; try tauto.
  - simpl. by f_equiv.
  - simpl. rewrite <-Permutation_middle. by f_equiv.
  - rewrite app_assoc, <-Permutation_middle, <-app_assoc. by f_equiv.
Qed.

(** X4: when the keys of the Map are distinct, no user is twice among the
    users the handler passes to [manageRoles] as qualified. *)
Theorem handler_qualified_distinct entries :
  NoDup entries.*1 →
  NoDup (userId <$>
           allQualified
             (determineQualified
                (regularMembers (categorizeMembers M P S guild entries))
                (specialMembers (categorizeMembers M P S guild entries))
                (protectedMembers (categorizeMembers M P S guild entries)))).
Proof.
  intros Hnd. destruct (categorizeMembers_lists entries) as (-> & -> & ->).
  unfold allQualified, determineQualified; simpl.
  set (users := omap (userDataOf M guild) entries).
  apply (sublist_NoDup _
           (userId <$> (sort_desc (filter isRegular users) ++
                        sort_desc (filter isSpecial users) ++
                        filter isProtected users))).
  - rewrite !sort_desc_Permutation, tiers_Permutation.
    apply (sublist_NoDup _ entries.*1); [done|apply omap_userDataOf_ids].
  - apply fmap_sublist. apply sublist_app; [apply sublist_take|].
    apply sublist_app; [apply sublist_filter|reflexivity].
Qed.
End Tiers.

(** ** The cut of the ranking *)

(** X5: on a Regular list sorted as [categorizeMembers] leaves it, the
    qualified Regular users are the first 30 (all of them when there are
    fewer), every Regular user that is cut has at most the threshold, so
    every qualified Special user has strictly more mentions than every
    Regular user that is cut, and a Special user that does not qualify has
    at most the threshold. *)
Theorem qualification_cut regular special protected :
  descending regular →
  let q := determineQualified regular special protected in
  length (top30Regular q) = min TOP_COUNT (length regular) ∧
  (∀ v, v ∈ drop TOP_COUNT regular → mentionCount v ≤ threshold q) ∧
  (∀ v w, v ∈ drop TOP_COUNT regular → w ∈ qualifiedSpecial q →
          mentionCount v < mentionCount w) ∧
  (∀ w, w ∈ special → w ∉ qualifiedSpecial q → mentionCount w ≤ threshold q).
Proof.
  intros Hsorted q. subst q.
  assert (∀ v, v ∈ drop TOP_COUNT regular →
               mentionCount v ≤ threshold (determineQualified regular special protected))
    as Hcut.
  { intros v Hv. rewrite threshold_last.
    destruct (last (take TOP_COUNT regular)) as [u|] eqn:Hlast; simpl.
    - unfold descending in Hsorted. rewrite <-(take_drop TOP_COUNT regular) in Hsorted.
      apply StronglySorted_app in Hsorted as [Hle _]. apply (Hle u v); [|done].
      by apply last_Some_elem_of.
    - apply last_None in Hlast.
      assert (regular = []) as ->.
      { destruct regular; [done|discriminate]. }
      by rewrite drop_nil in Hv; apply elem_of_nil in Hv. }
  split; [exact (length_take regular TOP_COUNT)|]. split; [exact Hcut|]. split.
  - intros v w Hv Hw. simpl in Hw. apply list_elem_of_filter in Hw as [Hlt _].
    specialize (Hcut v Hv). simpl in Hcut, Hlt. lia.
  - intros w Hw Hnot. simpl in Hnot.
    destruct (decide (threshold (determineQualified regular special protected)
                      < mentionCount w)) as [Hlt|Hge]; [|lia].
    destruct Hnot. apply list_elem_of_filter. by split.
Qed.

(** ** More on one run of the current engine *)

Section EngineMore.
Variable HIERARCH_ROLE_ID : RoleId.
Variable PROTECTED_ROLES_IDS : list RoleId.

Local Abbreviation lacksRole :=
  (λ user : UserData, ¬ roles_has (member user) HIERARCH_ROLE_ID).
Local Abbreviation run := (manageRolesWith HIERARCH_ROLE_ID PROTECTED_ROLES_IDS).
Local Abbreviation runs := (manageRolesSeq HIERARCH_ROLE_ID PROTECTED_ROLES_IDS).
Local Abbreviation printed := (skippedProtected HIERARCH_ROLE_ID PROTECTED_ROLES_IDS).
Local Abbreviation turn G guild q ts :=
  (handleHolder PROTECTED_ROLES_IDS G "Not qualified" (members_fetch guild)
     (roles_remove guild) (qualifiedUserIds q) ts).
Local Abbreviation pass G guild q ts :=
  (holderPass PROTECTED_ROLES_IDS G "Not qualified" (members_fetch guild)
     (roles_remove guild) (qualifiedUserIds q) ts).

(** The loop over the qualified users, when a [roles.add] rejects. *)
Lemma grantPass_rejects guild users tracking added user :
  user ∈ users → lacksRole user → roles_add guild (userId user) = false →
  ∃ granted,
    grantPass HIERARCH_ROLE_ID guild users tracking added = inr (added ++ granted) ∧
    ∀ g, g ∈ granted →
         ∃ v, v ∈ users ∧ lacksRole v ∧ roles_add guild (userId v) = true ∧
              g = mentionOf v.
Proof.
  intros Huser Hlacks Hrej. revert tracking added.
  induction users as [|v users IH]; intros tracking added.
  - by apply elem_of_nil in Huser.
  - simpl. destruct (decide (roles_has (member v) HIERARCH_ROLE_ID)) as [Hhas|Hnot].
    + apply elem_of_cons in Huser as [->|Huser]; [done|].
      destruct (IH Huser (clearGrace (userId v) tracking) added) as (granted & -> & Hg).
      exists granted. split; [done|]. intros g (w & ? & ?)%Hg.
      exists w. split; [by right|done].
    + destruct (roles_add guild (userId v)) eqn:Hadd.
      * apply elem_of_cons in Huser as [->|Huser]; [congruence|].
        destruct (IH Huser (clearGrace (userId v) tracking) (added ++ [mentionOf v]))
          as (granted & -> & Hg).
        exists (mentionOf v :: granted). split; [by rewrite <-app_assoc|].
        intros g [->|Hin]%elem_of_cons.
        -- exists v. split; [by left|done].
        -- destruct (Hg g Hin) as (w & ? & ?). exists w. split; [by right|done].
      * exists []. split; [by rewrite app_nil_r|]. intros g Hin.
        by apply elem_of_nil in Hin.
Qed.
End EngineMore.

Section HolderPassMore.
Variable PROTECTED_ROLES_IDS : list RoleId.
Variable G : nat.
Variable immediateReason : string.
Variable fetch : UserId → option Member.
Variable removeRole : UserId → bool.
Variable qualifiedUserIds : gset string.
Variable timestamp : string.

Local Abbreviation step :=
  (handleHolder PROTECTED_ROLES_IDS G immediateReason fetch removeRole
     qualifiedUserIds timestamp).

(** A holder whose fetch rejects is passed over. *)
Lemma handleHolder_unfetched v st : fetch v = None → step st v = st.
Proof.
  intros Hf. unfold handleHolder. rewrite Hf. by case_decide.
Qed.

(** Without grace period the holder is removed at once, if the removal
    resolves, and its record is not looked at. *)
Lemma handleHolder_immediate u m st :
  u ∉ qualifiedUserIds → fetch u = Some m →
  ¬ roles_some m PROTECTED_ROLES_IDS → G = 0 →
  view u (step st u) =
    (graceTracking st !! u,
     removedFor u (rolesRemoved st) ++
       (if removeRole u then
          [ {| Removed.username := displayName m; Removed.userId := u;
               Removed.reason := immediateReason; Removed.weeksOut := None |} ]
        else []),
     graceFor u (graceUsers st), skippedFor u (protectedSkipped st)).
Proof.
  intros Hnq Hf Hnp HG. unfold handleHolder, view.
  rewrite decide_False, Hf, decide_False, decide_False by (done || lia).
  destruct (removeRole u); simpl; [|by rewrite app_nil_r].
  rewrite removedFor_app. do 4 f_equal.
  unfold removedFor. by rewrite filter_cons, decide_True.
Qed.

(** What the turn of [u] from a fresh state leaves, with a grace period:
    a grace entry goes with a record of the same counter, within the grace
    length; a removal entry goes with a resolved removal, a counter above
    the grace length and no record. *)
Lemma handleHolder_fresh_entries u tracking :
  0 < G →
  let '(rec, rm, gr, sk) := view u (step (fresh tracking) u) in
  length gr ≤ 1 ∧
  (∀ e, e ∈ gr →
        1 ≤ GraceUser.weeksOut e ≤ G ∧
        GraceUser.weeksOut e + GraceUser.weeksRemaining e = G ∧
        ∃ r, rec = Some r ∧ weeksOut r = GraceUser.weeksOut e) ∧
  (∀ e, e ∈ rm →
        removeRole u = true ∧ rec = None ∧
        Removed.reason e = "Grace period expired" ∧
        ∃ w, Removed.weeksOut e = Some w ∧ G < w).
Proof.
  intros HG.
  assert (∀ rec : option GraceRecord,
            let '(rec', rm, gr, sk) :=
              (rec, @nil Removed.t, @nil GraceUser.t, @nil Skipped.t) in
            length gr ≤ 1 ∧
            (∀ e, e ∈ gr →
                  1 ≤ GraceUser.weeksOut e ≤ G ∧
                  GraceUser.weeksOut e + GraceUser.weeksRemaining e = G ∧
                  ∃ r, rec' = Some r ∧ weeksOut r = GraceUser.weeksOut e) ∧
            (∀ e, e ∈ rm →
                  removeRole u = true ∧ rec' = None ∧
                  Removed.reason e = "Grace period expired" ∧
                  ∃ w, Removed.weeksOut e = Some w ∧ G < w)) as Hidle.
  { intros rec. split; [simpl; lia|].
    split; intros e He; by apply elem_of_nil in He. }
  destruct (decide (u ∈ qualifiedUserIds)) as [Hq|Hnq].
  { rewrite handleHolder_qualified by done. apply (Hidle (tracking !! u)). }
  destruct (fetch u) as [m|] eqn:Hf.
  2: { rewrite handleHolder_unfetched by done. apply (Hidle (tracking !! u)). }
  destruct (decide (roles_some m PROTECTED_ROLES_IDS)) as [Hp|Hnp].
  { erewrite handleHolder_protected by done. simpl.
    split; [lia|]. split; intros e He; by apply elem_of_nil in He. }
  destruct (tracking !! u) as [r|] eqn:Hrec.
  - destruct (decide (G < weeksOut r + 1)) as [Hlt|Hle].
    + destruct (removeRole u) eqn:Hrm.
      * erewrite handleHolder_expired by done. simpl.
        split; [lia|]. split; intros e He; [by apply elem_of_nil in He|].
        apply list_elem_of_singleton in He as ->. simpl.
        split; [done|]. split; [done|]. split; [done|]. by eexists.
      * erewrite handleHolder_stuck by done. simpl.
        split; [lia|]. split; intros e He; by apply elem_of_nil in He.
    + erewrite handleHolder_continued by (done || lia). simpl.
      split; [lia|]. split; intros e He; [|by apply elem_of_nil in He].
      apply list_elem_of_singleton in He as ->. simpl.
      split; [lia|]. split; [lia|]. by eexists.
  - erewrite handleHolder_started by done. simpl.
    split; [lia|]. split; intros e He; [|by apply elem_of_nil in He].
    apply list_elem_of_singleton in He as ->. simpl.
    split; [lia|]. split; [lia|]. by eexists.
Qed.
End HolderPassMore.

Lemma elem_of_graceFor e l : e ∈ l → e ∈ graceFor (GraceUser.userId e) l.
Proof. intros He. apply list_elem_of_filter. by split. Qed.

Lemma elem_of_removedFor e l : e ∈ l → e ∈ removedFor (Removed.userId e) l.
Proof. intros He. apply list_elem_of_filter. by split. Qed.

Lemma graceUsers_NoDup l :
  (∀ u, length (graceFor u l) ≤ 1) → NoDup (GraceUser.userId <$> l).
Proof.
  induction l as [|e l IH]; intros Hone; [constructor|].
  rewrite fmap_cons. apply NoDup_cons. split.
  - intros (e' & Heq & Hin)%list_elem_of_fmap.
    specialize (Hone (GraceUser.userId e)). unfold graceFor in Hone.
    rewrite filter_cons, decide_True in Hone by done. simpl in Hone.
    assert (e' ∈ filter (λ x, GraceUser.userId x = GraceUser.userId e) l) as Hin'.
    { apply list_elem_of_filter. by split. }
    destruct (filter _ l); [by apply elem_of_nil in Hin'|simpl in Hone; lia].
  - apply IH. intros u. specialize (Hone u). unfold graceFor in *.
    rewrite filter_cons in Hone. case_decide; simpl in Hone; lia.
Qed.

(** Without grace period the pass neither reads nor writes the grace records,
    and starts no grace. *)
Lemma holderPass_no_grace P reason fetch removeRole qualified ts members st :
  graceTracking (holderPass P 0 reason fetch removeRole qualified ts members st)
  = graceTracking st ∧
  graceUsers (holderPass P 0 reason fetch removeRole qualified ts members st)
  = graceUsers st.
Proof.
  revert st. induction members as [|v members IH]; intros st; [done|].
  rewrite holderPass_cons. destruct (IH (handleHolder P 0 reason fetch removeRole
                                           qualified ts st v)) as [-> ->].
  unfold handleHolder.
  repeat (first [ case_decide | case_match ]); simpl; try lia; done.
Qed.

Section HandlerMore.
Variables HIERARCH_ROLE_ID MEMBER_ROLE_ID : RoleId.
Variables PROTECTED_ROLES_IDS SPECIAL_ROLES_IDS : list RoleId.

Local Abbreviation lacksRole :=
  (λ user : UserData, ¬ roles_has (member user) HIERARCH_ROLE_ID).
Local Abbreviation run := (manageRolesWith HIERARCH_ROLE_ID PROTECTED_ROLES_IDS).
Local Abbreviation runs := (manageRolesSeq HIERARCH_ROLE_ID PROTECTED_ROLES_IDS).
Local Abbreviation printed := (skippedProtected HIERARCH_ROLE_ID PROTECTED_ROLES_IDS).
Local Abbreviation turn G guild q ts :=
  (handleHolder PROTECTED_ROLES_IDS G "Not qualified" (members_fetch guild)
     (roles_remove guild) (qualifiedUserIds q) ts).
Local Abbreviation handler :=
  (ready HIERARCH_ROLE_ID MEMBER_ROLE_ID PROTECTED_ROLES_IDS SPECIAL_ROLES_IDS).
Local Abbreviation qualifiedOf guild entries :=
  (determineQualified
     (regularMembers (categorizeMembers MEMBER_ROLE_ID PROTECTED_ROLES_IDS
                        SPECIAL_ROLES_IDS guild entries))
     (specialMembers (categorizeMembers MEMBER_ROLE_ID PROTECTED_ROLES_IDS
                        SPECIAL_ROLES_IDS guild entries))
     (protectedMembers (categorizeMembers MEMBER_ROLE_ID PROTECTED_ROLES_IDS
                          SPECIAL_ROLES_IDS guild entries))).

(** X6: when the role is found but [roles.add] rejects for a qualified user
    without the role, the handler exits with status 1 without the success
    line and the grace file stays as it was; the only role changes made are
    the grants, already done, to qualified users for whom the call
    resolved. *)
Theorem rejected_add_fails_the_run guild entries ts graceFile user :
  is_Some (roles_fetch_hierarch guild) →
  user ∈ allQualified (qualifiedOf guild entries) →
  lacksRole user → roles_add guild (userId user) = false →
  exitCode (handler guild entries ts graceFile) = 1 ∧
  successLogged (handler guild entries ts graceFile) = false ∧
  graceFileAfter (handler guild entries ts graceFile) = graceFile ∧
  ∀ change, change ∈ roleChanges (handler guild entries ts graceFile) →
    ∃ v, v ∈ allQualified (qualifiedOf guild entries) ∧ lacksRole v ∧
         roles_add guild (userId v) = true ∧ change = Grant (userId v).
Proof.
  intros [members Hrole] Huser Hlacks Hrej.
  unfold ready, manageRoles, manageRolesWith. rewrite Hrole.
  destruct (grantPass_rejects HIERARCH_ROLE_ID guild _ graceFile [] user
              Huser Hlacks Hrej) as (granted & -> & Hgranted).
  simpl. split; [done|]. split; [done|]. split; [done|].
  intros change (g & -> & (e & -> & He)%list_elem_of_fmap)%list_elem_of_fmap.
  destruct (Hgranted e He) as (v & Hv & Hl & Hadd & ->).
  exists v. done.
Qed.

(** X7: a completed run leaves alone whoever is not qualified and is either
    no holder of the role, or a holder whose fetch rejects: no removal, no
    grace entry, and the record in the grace file, if any, stays as it is. *)
Theorem run_leaves_others_alone G guild q ts graceFile logData graceFile' members u :
  run G guild q ts graceFile = Completed logData graceFile' →
  roles_fetch_hierarch guild = Some members → NoDup members →
  u ∉ qualifiedUserIds q →
  u ∉ members ∨ members_fetch guild u = None →
  graceFile' !! u = graceFile !! u ∧
  (u ∉ Removed.userId <$> LogData.rolesRemoved logData) ∧
  (u ∉ GraceUser.userId <$> LogData.graceUsers logData).
Proof.
  intros Hrun Hrole Hnd Hnq Hwho.
  rewrite <-removedFor_nil_iff, <-graceFor_nil_iff.
  destruct (decide (u ∈ members)) as [Hin|Hnin].
  - destruct Hwho as [?|Hf]; [done|].
    pose proof (run_view_holder _ _ _ _ _ _ _ _ _ _ _ Hrun Hrole Hnd Hin Hnq) as Hv.
    rewrite handleHolder_unfetched in Hv by done.
    by injection Hv as -> -> -> _.
  - pose proof (run_view_other _ _ _ _ _ _ _ _ _ _ u Hrun Hrole (or_introl Hnin))
      as Hv.
    rewrite decide_False in Hv by done. by injection Hv as -> -> -> _.
Qed.

(** X8: with the grace period disabled (length 0) a completed run starts no
    grace and writes the grace file it read less the records of the
    qualified users; a holder that is fetched, not qualified and not
    protected is removed at once, with the reason [Not qualified], when the
    removal resolves, and is left alone when it rejects. *)
Theorem no_grace_period_removes_at_once guild q ts graceFile logData graceFile' u m :
  run 0 guild q ts graceFile = Completed logData graceFile' →
  holder guild u → disqualified PROTECTED_ROLES_IDS guild q u m →
  LogData.graceUsers logData = [] ∧
  (∀ v, graceFile' !! v =
        if decide (v ∈ qualifiedUserIds q) then None else graceFile !! v) ∧
  removedFor u (LogData.rolesRemoved logData) =
    if roles_remove guild u then
      [ {| Removed.username := displayName m; Removed.userId := u;
           Removed.reason := "Not qualified"; Removed.weeksOut := None |} ]
    else [].
Proof.
  intros Hrun Hh Hd.
  pose proof (run_view_disqualified _ _ _ _ _ _ _ _ _ _ _ Hrun Hh Hd) as Hv.
  destruct Hd as (Hf & Hnp & Hnq).
  erewrite handleHolder_immediate in Hv by done.
  injection Hv as _ Hrem _ _.
  apply run_Completed_inv in Hrun
    as (members & tracking & _ & Hlook & _ & _ & Hgr & _ & Hfile).
  destruct (holderPass_no_grace PROTECTED_ROLES_IDS "Not qualified"
              (members_fetch guild) (roles_remove guild) (qualifiedUserIds q) ts
              members (fresh tracking)) as [Htrack Hgrace].
  rewrite Hgrace in Hgr. rewrite Htrack in Hfile. subst graceFile'.
  split; [done|]. split; [exact Hlook|]. by rewrite Hrem.
Qed.

(** X9: in a completed run with a grace period over distinct holders, the log
    and the grace file written agree.  A grace entry is for a holder that
    is not qualified, its counter is between 1 and the grace length, counter
    and weeks remaining add up to the grace length, and the file holds a
    record with that counter; a removal entry is for a holder that is not
    qualified and whose removal resolved, its reason is
    [Grace period expired], its counter is above the grace length, and the
    file holds no record for it. *)
Theorem log_agrees_with_grace_file G guild q ts graceFile logData graceFile' members :
  0 < G →
  run G guild q ts graceFile = Completed logData graceFile' →
  roles_fetch_hierarch guild = Some members → NoDup members →
  (∀ e, e ∈ LogData.graceUsers logData →
        GraceUser.userId e ∈ members ∧
        (GraceUser.userId e ∉ qualifiedUserIds q) ∧
        1 ≤ GraceUser.weeksOut e ≤ G ∧
        GraceUser.weeksOut e + GraceUser.weeksRemaining e = G ∧
        ∃ r, graceFile' !! GraceUser.userId e = Some r ∧
             weeksOut r = GraceUser.weeksOut e) ∧
  (∀ e, e ∈ LogData.rolesRemoved logData →
        Removed.userId e ∈ members ∧
        (Removed.userId e ∉ qualifiedUserIds q) ∧
        roles_remove guild (Removed.userId e) = true ∧
        Removed.reason e = "Grace period expired" ∧
        (∃ w, Removed.weeksOut e = Some w ∧ G < w) ∧
        graceFile' !! Removed.userId e = None).
Proof.
  intros HG Hrun Hrole Hnd.
  assert (∀ u, (u ∈ members ∧ u ∉ qualifiedUserIds q) ∨
               (graceFor u (LogData.graceUsers logData) = [] ∧
                removedFor u (LogData.rolesRemoved logData) = [])) as Hwho.
  { intros u. destruct (decide (u ∈ members ∧ u ∉ qualifiedUserIds q)) as [?|Hother];
      [by left|right].
    assert (u ∉ members ∨ u ∈ qualifiedUserIds q) as Hu.
    { destruct (decide (u ∈ members)); [|by left].
      destruct (decide (u ∈ qualifiedUserIds q)); [by right|tauto]. }
    pose proof (run_view_other _ _ _ _ _ _ _ _ _ _ u Hrun Hrole Hu) as Hv.
    by injection Hv as _ -> -> _. }
  assert (∀ u, u ∈ members → u ∉ qualifiedUserIds q →
               let '(rec, rm, gr, sk) :=
                 runView u logData graceFile' (printed G guild q ts graceFile) in
               length gr ≤ 1 ∧
               (∀ e, e ∈ gr →
                     1 ≤ GraceUser.weeksOut e ≤ G ∧
                     GraceUser.weeksOut e + GraceUser.weeksRemaining e = G ∧
                     ∃ r, rec = Some r ∧ weeksOut r = GraceUser.weeksOut e) ∧
               (∀ e, e ∈ rm →
                     roles_remove guild u = true ∧ rec = None ∧
                     Removed.reason e = "Grace period expired" ∧
                     ∃ w, Removed.weeksOut e = Some w ∧ G < w)) as Hturn.
  { intros u Hu Hnq.
    rewrite (run_view_holder _ _ _ _ _ _ _ _ _ _ _ Hrun Hrole Hnd Hu Hnq).
    by apply handleHolder_fresh_entries. }
  unfold runView in Hturn. split.
  - intros e He. apply elem_of_graceFor in He.
    destruct (Hwho (GraceUser.userId e)) as [[Hu Hnq]|[Hnil _]].
    + destruct (Hturn _ Hu Hnq) as (_ & Hgr & _). split; [done|]. split; [done|].
      by apply Hgr.
    + rewrite Hnil in He. by apply elem_of_nil in He.
  - intros e He. apply elem_of_removedFor in He.
    destruct (Hwho (Removed.userId e)) as [[Hu Hnq]|[_ Hnil]].
    + destruct (Hturn _ Hu Hnq) as (_ & _ & Hrm). split; [done|]. split; [done|].
      destruct (Hrm e He) as (? & ? & ? & ?). done.
    + rewrite Hnil in He. by apply elem_of_nil in He.
Qed.
End HandlerMore.

(** ** The length of the grace period *)

Section GraceLength.
Variable HIERARCH_ROLE_ID : RoleId.
Variable PROTECTED_ROLES_IDS : list RoleId.

Local Abbreviation run := (manageRolesWith HIERARCH_ROLE_ID PROTECTED_ROLES_IDS).
Local Abbreviation runs := (manageRolesSeq HIERARCH_ROLE_ID PROTECTED_ROLES_IDS).

Lemma manageRolesSeq_app G rs rs' graceFile :
  runs G (rs ++ rs') graceFile
  = ((runs G rs graceFile).1 ++ (runs G rs' (runs G rs graceFile).2).1,
     (runs G rs' (runs G rs graceFile).2).2).
Proof.
  revert graceFile. induction rs as [|r rs IH]; intros graceFile.
  - simpl. by destruct (runs G rs' graceFile).
  - simpl. rewrite IH.
    by destruct (runs G rs (graceFileOf _ graceFile)).
Qed.

Lemma manageRolesSeq_length G rs graceFile :
  length (runs G rs graceFile).1 = length rs.
Proof.
  revert graceFile. induction rs as [|r rs IH]; intros graceFile; [done|].
  simpl. specialize (IH (graceFileOf
    (run G (run_guild r) (run_qualified r) (run_timestamp r) graceFile) graceFile)).
  destruct (runs G rs _). simpl in *. by rewrite IH.
Qed.

(** While the counter stays within the grace length, each completed run in
    which [u] is a disqualified holder advances it by one and removes
    nobody on account of [u]. *)
Lemma quiet_runs_count G rs graceFile u :
  Forall (quietFor PROTECTED_ROLES_IDS u) rs →
  Forall isCompleted (runs G rs graceFile).1 →
  weeksOutOf graceFile u + length rs ≤ G →
  weeksOutOf (runs G rs graceFile).2 u = weeksOutOf graceFile u + length rs ∧
  (rs ≠ [] → is_Some ((runs G rs graceFile).2 !! u)) ∧
  neverRemoved u (runs G rs graceFile).1.
Proof.
  revert graceFile. induction rs as [|r rs IH]; intros graceFile Hquiet Hdone Hle.
  - simpl. split; [lia|]. split; [done|constructor].
  - apply Forall_cons in Hquiet as [[Hh [m Hd]] Hquiet]. simpl in *.
    destruct (run G (run_guild r) (run_qualified r) (run_timestamp r) graceFile)
      as [logData graceFile'| |] eqn:Hrun.
    2,3: destruct (runs G rs _); simpl in Hdone;
         apply Forall_cons in Hdone as [[] _].
    simpl in *.
    pose proof (run_view_disqualified _ _ _ _ _ _ _ _ _ _ _ Hrun Hh Hd) as Hv.
    destruct Hd as (Hf & Hnp & Hnq).
    assert (weeksOutOf graceFile' u = weeksOutOf graceFile u + 1 ∧
            is_Some (graceFile' !! u) ∧
            removedFor u (LogData.rolesRemoved logData) = []) as (Hw & Hsome & Hrem).
    { unfold weeksOutOf in *.
      destruct (graceFile !! u) as [r0|] eqn:Hrec; simpl in *.
      - erewrite handleHolder_continued in Hv; [|done|done|done|lia|done|lia].
        injection Hv as -> -> _ _. simpl. done.
      - erewrite handleHolder_started in Hv; [|done|done|done|lia|done].
        injection Hv as -> -> _ _. simpl. done. }
    specialize (IH graceFile').
    destruct (runs G rs graceFile') as [os final] eqn:Hrest. simpl in *.
    apply Forall_cons in Hdone as [_ Hdone].
    destruct (IH Hquiet Hdone ltac:(lia)) as (IHw & IHsome & IHrem).
    split; [lia|]. split.
    + intros _. destruct rs as [|r' rs]; [|by apply IHsome].
      simpl in Hrest. by injection Hrest as <- <-.
    + constructor; [|done]. by intros ? ? [= <- <-].
Qed.

(** X10: a holder without record that is disqualified in every one of G + 1
    consecutive completed runs (G the grace length, above 0) is removed by
    none of the first G and by the last one, the removal resolving, with one
    entry of counter G + 1 and reason [Grace period expired]; after it the
    grace file holds no record of the holder. *)
Theorem grace_lasts_G_runs G rs r graceFile u :
  0 < G → length rs = G → graceFile !! u = None →
  Forall (quietFor PROTECTED_ROLES_IDS u) (rs ++ [r]) →
  Forall isCompleted (runs G (rs ++ [r]) graceFile).1 →
  roles_remove (run_guild r) u = true →
  ∃ outcomes logData entry,
    (runs G (rs ++ [r]) graceFile).1
    = outcomes ++ [Completed logData (runs G (rs ++ [r]) graceFile).2] ∧
    length outcomes = G ∧ neverRemoved u outcomes ∧
    removedFor u (LogData.rolesRemoved logData) = [entry] ∧
    Removed.weeksOut entry = Some (G + 1) ∧
    Removed.reason entry = "Grace period expired" ∧
    (runs G (rs ++ [r]) graceFile).2 !! u = None.
Proof.
  intros HG Hlen Hnone Hquiet Hdone Hrm.
  rewrite manageRolesSeq_app in *. simpl in *.
  apply Forall_app in Hquiet as [Hquiet Hlast].
  apply Forall_singleton in Hlast as [Hh [m Hd]].
  apply Forall_app in Hdone as [Hdone Hdone'].
  destruct (quiet_runs_count G rs graceFile u Hquiet Hdone) as (Hw & Hsome & Hrem).
  { unfold weeksOutOf. rewrite Hnone. simpl. lia. }
  set (mid := (runs G rs graceFile).2) in *.
  destruct (run G (run_guild r) (run_qualified r) (run_timestamp r) mid)
    as [logData graceFile'| |] eqn:Hrun; simpl in *.
  2,3: exfalso; exact (Forall_inv Hdone').
  destruct Hsome as [r0 Hr0]; [intros ->; simpl in Hlen; lia|].
  unfold weeksOutOf in Hw. rewrite Hr0, Hnone in Hw. simpl in Hw.
  pose proof (run_view_disqualified _ _ _ _ _ _ _ _ _ _ _ Hrun Hh Hd) as Hv.
  destruct Hd as (Hf & Hnp & Hnq).
  erewrite handleHolder_expired in Hv; [|done|done|done|done|done|lia|done].
  injection Hv as Hfile Hremoved _ _.
  eexists (runs G rs graceFile).1, logData, _.
  split; [done|]. split.
  { by rewrite manageRolesSeq_length. }
  split; [done|]. split; [exact Hremoved|]. simpl.
  split; [f_equal; lia|]. split; [done|exact Hfile].
Qed.
End GraceLength.

(** ** The total of the summary *)

Lemma top30_log_ids (l : list UserData) :
  Rank.userId <$>
    imap (λ i user, {| Rank.rank := i + 1; Rank.username := username user;
                       Rank.userId := userId user;
                       Rank.mentions := mentionCount user |}) l
  = userId <$> l.
Proof.
  apply list_eq. intros i. rewrite !list_lookup_fmap, list_lookup_imap.
  by destruct (l !! i).
Qed.

Lemma mentionOf_ids (l : list UserData) :
  Mention.userId <$> (mentionOf <$> l) = userId <$> l.
Proof. by rewrite <-list_fmap_compose. Qed.

Lemma handleHolder_fresh_one_grace P G reason fetch removeRole qualified ts u tracking :
  length (graceFor u (graceUsers (handleHolder P G reason fetch removeRole
                                    qualified ts (fresh tracking) u))) ≤ 1.
Proof.
  unfold handleHolder, fresh, graceFor; simpl.
  repeat (first [ case_decide | case_match ]); simpl;
    rewrite ?filter_cons, ?filter_nil; repeat case_decide; simpl; lia.
Qed.

Section SummaryTotal.
Variable HIERARCH_ROLE_ID : RoleId.
Variable PROTECTED_ROLES_IDS : list RoleId.

Local Abbreviation run := (manageRolesWith HIERARCH_ROLE_ID PROTECTED_ROLES_IDS).

Lemma run_Completed_qualified_lists G guild q ts graceFile logData graceFile' :
  run G guild q ts graceFile = Completed logData graceFile' →
  (Rank.userId <$> LogData.top30 logData) ++
  (Mention.userId <$> LogData.specialRoles logData) ++
  (Mention.userId <$> LogData.protected logData)
  = userId <$> allQualified q.
Proof.
  unfold manageRolesWith.
  destruct (roles_fetch_hierarch guild) as [members|]; [|done].
  destruct (grantPass _ _ _ _ _) as [[tracking added]|]; [|done].
  intros [= <- _]. simpl.
  rewrite top30_log_ids, !mentionOf_ids. unfold allQualified.
  by rewrite !fmap_app.
Qed.

(** X11: when no user is twice among the qualified users and the holders are
    distinct, the users a completed run counts on the [TOTAL WITH HIERARCH]
    line (the top 30, the qualified Special and Protected users and the
    users in grace) are distinct: the total is the number of different
    users on these lists. *)
Theorem total_counts_each_user_once G guild q ts graceFile logData graceFile' :
  run G guild q ts graceFile = Completed logData graceFile' →
  holdersDistinct guild → NoDup (userId <$> allQualified q) →
  NoDup (countedIds logData) ∧
  totalWithHierarch logData = size (list_to_set (countedIds logData) : gset string).
Proof.
  intros Hrun Hdistinct Hq.
  destruct (run_Completed_inv _ _ _ _ _ _ _ _ _ Hrun) as (members & _ & Hrole & _).
  unfold holdersDistinct in Hdistinct. rewrite Hrole in Hdistinct.
  assert (NoDup (countedIds logData)) as Hnd.
  { unfold countedIds. rewrite !app_assoc, <-(app_assoc _ _ (_ <$> LogData.protected _)).
    rewrite (run_Completed_qualified_lists _ _ _ _ _ _ _ Hrun).
    apply NoDup_app. split; [done|]. split.
    - intros u Hu. apply graceFor_nil_iff.
      assert (u ∈ qualifiedUserIds q) as Hin by (by apply elem_of_list_to_set).
      pose proof (run_view_other _ _ _ _ _ _ _ _ _ _ u Hrun Hrole (or_intror Hin))
        as Hv.
      by injection Hv as _ _ -> _.
    - apply graceUsers_NoDup. intros u.
      destruct (decide (u ∈ members ∧ u ∉ qualifiedUserIds q)) as [[Hu Hnq]|Hother].
      + pose proof (run_view_holder _ _ _ _ _ _ _ _ _ _ _ Hrun Hrole Hdistinct
                      Hu Hnq) as Hv.
        injection Hv as _ _ -> _. apply handleHolder_fresh_one_grace.
      + assert (u ∉ members ∨ u ∈ qualifiedUserIds q) as Hu.
        { destruct (decide (u ∈ members)); [|by left].
          destruct (decide (u ∈ qualifiedUserIds q)); [by right|tauto]. }
        pose proof (run_view_other _ _ _ _ _ _ _ _ _ _ u Hrun Hrole Hu) as Hv.
        injection Hv as _ _ -> _. simpl. lia. }
  split; [done|]. rewrite size_list_to_set by done.
  unfold totalWithHierarch, countedIds. rewrite !length_app, !length_fmap. lia.
Qed.
End SummaryTotal.

(** ** A mentioned protected member *)

Section ProtectedMentioned.
Variables HIERARCH_ROLE_ID MEMBER_ROLE_ID : RoleId.
Variables PROTECTED_ROLES_IDS SPECIAL_ROLES_IDS : list RoleId.

Local Abbreviation run := (manageRolesWith HIERARCH_ROLE_ID PROTECTED_ROLES_IDS).
Local Abbreviation categorized guild entries :=
  (categorizeMembers MEMBER_ROLE_ID PROTECTED_ROLES_IDS SPECIAL_ROLES_IDS
     guild entries).

(** X12: a member with the Member role and a protected role that is
    mentioned at least once is qualified whatever the count: a completed run
    of the handler's [manageRoles] grants it the role when it lacks it, has
    no removal or grace entry for it, and leaves no record of it in the
    grace file. *)
Theorem mentioned_protected_member_qualifies
    G guild entries ts graceFile logData graceFile' entry m :
  run G guild
      (determineQualified (regularMembers (categorized guild entries))
         (specialMembers (categorized guild entries))
         (protectedMembers (categorized guild entries)))
      ts graceFile = Completed logData graceFile' →
  entry ∈ entries → members_fetch guild entry.1 = Some m →
  roles_has m MEMBER_ROLE_ID → roles_some m PROTECTED_ROLES_IDS →
  graceFile' !! entry.1 = None ∧
  (entry.1 ∉ Removed.userId <$> LogData.rolesRemoved logData) ∧
  (entry.1 ∉ GraceUser.userId <$> LogData.graceUsers logData) ∧
  (¬ roles_has m HIERARCH_ROLE_ID →
   entry.1 ∈ Mention.userId <$> LogData.rolesAdded logData).
Proof.
  intros Hrun Hentry Hf Hm Hp.
  set (q := determineQualified _ _ _) in *.
  set (u := {| userId := entry.1; username := displayName m;
               mentionCount := entry.2; member := m |}).
  assert (u ∈ protectedMembers (categorized guild entries)) as Hprot.
  { destruct (categorizeMembers_lists MEMBER_ROLE_ID PROTECTED_ROLES_IDS
                SPECIAL_ROLES_IDS guild entries) as (-> & _ & _).
    apply list_elem_of_filter. split; [done|].
    apply list_elem_of_omap. exists entry. split; [done|].
    unfold userDataOf. rewrite Hf. by rewrite decide_True. }
  assert (u ∈ allQualified q) as Hu.
  { unfold allQualified. rewrite !elem_of_app. right; right. exact Hprot. }
  assert (entry.1 ∈ qualifiedUserIds q) as Hq.
  { apply elem_of_list_to_set. by apply (list_elem_of_fmap_2' userId _ u). }
  destruct (run_Completed_inv _ _ _ _ _ _ _ _ _ Hrun)
    as (members & _ & Hrole & _ & Hadded & _).
  pose proof (run_view_other _ _ _ _ _ _ _ _ _ _ entry.1 Hrun Hrole (or_intror Hq))
    as Hv.
  rewrite decide_True in Hv by done. injection Hv as Hrec Hrem Hgr _.
  split; [done|]. split; [by apply removedFor_nil_iff|].
  split; [by apply graceFor_nil_iff|].
  intros Hlacks. rewrite Hadded, mentionOf_ids.
  apply (list_elem_of_fmap_2' userId _ u); [|done].
  apply list_elem_of_filter. by split.
Qed.
End ProtectedMentioned.

(** ** The legacy handler *)

Lemma legacy_eligibleLoop guild entries eligible :
  LegacyHandler.eligibleLoop guild entries eligible
  = eligible ++
    filter (λ u, ¬ Exists (λ r, r ∈ LegacyHandler.SPECIAL_ROLES_IDS ∨
                                r ∈ Legacy.PROTECTED_ROLES_IDS)
                          (roles_cache (member u)))
           (omap (userDataOf LegacyHandler.MEMBER_ROLE_ID guild) entries).
Proof.
  revert eligible. induction entries as [|[id count] entries IH]; intros eligible.
  - simpl. by rewrite app_nil_r.
  - cbn [LegacyHandler.eligibleLoop omap list_omap]. unfold userDataOf at 1.
    cbn [fst snd].
    destruct (members_fetch guild id) as [m|]; [|apply IH].
    destruct (decide (roles_has m LegacyHandler.MEMBER_ROLE_ID)); [|apply IH].
    rewrite filter_cons. cbn [member].
    destruct (decide (Exists _ (roles_cache m))) as [Hex|Hnex].
    + rewrite decide_False by tauto. apply IH.
    + rewrite decide_True by done. rewrite IH. by rewrite <-app_assoc.
Qed.

Lemma legacy_getActiveSpecialRolesFrom guild entries activeSpecial :
  LegacyHandler.getActiveSpecialRolesFrom guild entries activeSpecial
  = activeSpecial ++
    filter (λ u, roles_some (member u) LegacyHandler.SPECIAL_ROLES_IDS)
           (omap (builtFor guild) entries).
Proof.
  revert activeSpecial.
  induction entries as [|[id count] entries IH]; intros activeSpecial.
  - simpl. by rewrite app_nil_r.
  - cbn [LegacyHandler.getActiveSpecialRolesFrom omap list_omap].
    unfold builtFor at 1. cbn [fst snd].
    destruct (members_fetch guild id) as [m|]; [|apply IH].
    rewrite filter_cons. cbn [member].
    destruct (decide (roles_some m LegacyHandler.SPECIAL_ROLES_IDS)).
    + rewrite IH. by rewrite <-app_assoc.
    + apply IH.
Qed.

Lemma builtFor_fetch guild entry u :
  builtFor guild entry = Some u →
  userId u = entry.1 ∧ members_fetch guild (userId u) = Some (member u).
Proof.
  unfold builtFor. destruct (members_fetch guild entry.1) as [m|] eqn:Hf; [|done].
  intros [= <-]. done.
Qed.

Lemma userDataOf_builtFor M guild entry u :
  userDataOf M guild entry = Some u ↔
  builtFor guild entry = Some u ∧ roles_has (member u) M.
Proof.
  unfold userDataOf, builtFor.
  destruct (members_fetch guild entry.1) as [m|]; [|by split; [|intros []]].
  case_decide as Hm; split.
  - by intros [= <-].
  - by intros [? _].
  - done.
  - intros [[= <-] ?]. done.
Qed.

Lemma roles_some_either (m : Member) (A B : list RoleId) :
  Exists (λ r, r ∈ A ∨ r ∈ B) (roles_cache m) ↔ roles_some m A ∨ roles_some m B.
Proof.
  unfold roles_some. rewrite !Exists_exists. split.
  - intros (r & Hr & [?|?]); [left|right]; by exists r.
  - intros [(r & ? & ?)|(r & ? & ?)]; exists r; tauto.
Qed.

(** What [manageRoles] is called on in the legacy handler. *)
Lemma legacy_top30_elem guild entries v :
  v ∈ take LegacyHandler.TOP_COUNT (LegacyHandler.filterEligibleUsers guild entries) →
  roles_has (member v) LegacyHandler.MEMBER_ROLE_ID ∧
  ¬ roles_some (member v) LegacyHandler.SPECIAL_ROLES_IDS ∧
  ¬ roles_some (member v) Legacy.PROTECTED_ROLES_IDS ∧
  ∃ entry, entry ∈ entries ∧ builtFor guild entry = Some v.
Proof.
  intros Hv. apply (subseteq_take _ _) in Hv.
  unfold LegacyHandler.filterEligibleUsers in Hv.
  rewrite elem_of_sort_desc, legacy_eligibleLoop in Hv. simpl in Hv.
  apply list_elem_of_filter in Hv as [Hnone Hv].
  apply list_elem_of_omap in Hv as (entry & Hentry & [Hb Hm]%userDataOf_builtFor).
  rewrite roles_some_either in Hnone.
  split; [done|]. split; [tauto|]. split; [tauto|]. by exists entry.
Qed.

Lemma legacy_active_elem guild entries w :
  w ∈ LegacyHandler.getActiveSpecialRoles guild entries ↔
  roles_some (member w) LegacyHandler.SPECIAL_ROLES_IDS ∧
  ∃ entry, entry ∈ entries ∧ builtFor guild entry = Some w.
Proof.
  unfold LegacyHandler.getActiveSpecialRoles.
  rewrite legacy_getActiveSpecialRolesFrom. simpl.
  by rewrite list_elem_of_filter, list_elem_of_omap.
Qed.

(** X13: in the legacy handler the users passed to [manageRoles] as top 30
    have the Member role and neither a special nor a protected role; the
    users passed as active special roles are exactly the mentioned members
    that are fetched with a special role, with or without the Member role;
    and no user is on both lists. *)
Theorem legacy_handler_inputs guild entries :
  (∀ v, v ∈ take LegacyHandler.TOP_COUNT
              (LegacyHandler.filterEligibleUsers guild entries) →
        roles_has (member v) LegacyHandler.MEMBER_ROLE_ID ∧
        ¬ roles_some (member v) LegacyHandler.SPECIAL_ROLES_IDS ∧
        ¬ roles_some (member v) Legacy.PROTECTED_ROLES_IDS ∧
        ∃ entry, entry ∈ entries ∧ builtFor guild entry = Some v) ∧
  (∀ w, w ∈ LegacyHandler.getActiveSpecialRoles guild entries ↔
        roles_some (member w) LegacyHandler.SPECIAL_ROLES_IDS ∧
        ∃ entry, entry ∈ entries ∧ builtFor guild entry = Some w) ∧
  (∀ v w, v ∈ take LegacyHandler.TOP_COUNT
                (LegacyHandler.filterEligibleUsers guild entries) →
          w ∈ LegacyHandler.getActiveSpecialRoles guild entries →
          userId v ≠ userId w).
Proof.
  split; [apply legacy_top30_elem|]. split; [apply legacy_active_elem|].
  intros v w (_ & Hns & _ & ev & _ & [_ Hfv]%builtFor_fetch)%legacy_top30_elem
    [Hs (ew & _ & [_ Hfw]%builtFor_fetch)]%legacy_active_elem Heq.
  rewrite Heq in Hfv. congruence.
Qed.

Lemma legacy_not_active guild entries u m :
  members_fetch guild u = Some m →
  ¬ roles_some m LegacyHandler.SPECIAL_ROLES_IDS →
  roles_some m Legacy.PROTECTED_ROLES_IDS ∨
    ¬ roles_has m LegacyHandler.MEMBER_ROLE_ID →
  u ∉ Legacy.activeUsers
        (take LegacyHandler.TOP_COUNT (LegacyHandler.filterEligibleUsers guild entries))
        (LegacyHandler.getActiveSpecialRoles guild entries).
Proof.
  intros Hf Hns Hwhy. unfold Legacy.activeUsers.
  rewrite elem_of_list_to_set, fmap_app, elem_of_app.
  intros [(v & -> & Hv)%list_elem_of_fmap|(w & -> & Hw)%list_elem_of_fmap].
  - apply legacy_top30_elem in Hv
      as (Hm & _ & Hnp & _ & _ & [_ Hfv]%builtFor_fetch).
    rewrite Hf in Hfv. injection Hfv as ->. tauto.
  - apply legacy_active_elem in Hw as [Hs (_ & _ & [_ Hfw]%builtFor_fetch)].
    rewrite Hf in Hfw. injection Hfw as ->. done.
Qed.

(** X14: in the legacy handler a mentioned member that is fetched with a
    special role, however few the mentions, is never given the role by a
    run, and has no removal, grace or skipped entry and no record in the
    grace file the run writes. *)
Theorem legacy_special_member_kept guild entries ts graceFile logData graceFile' entry m :
  LegacyHandler.manageRolesOfMentions guild entries ts graceFile
    = Some (logData, graceFile') →
  entry ∈ entries → members_fetch guild entry.1 = Some m →
  roles_some m LegacyHandler.SPECIAL_ROLES_IDS →
  graceFile' !! entry.1 = None ∧
  (entry.1 ∉ Mention.userId <$> Legacy.LogData.rolesAdded logData) ∧
  (entry.1 ∉ Removed.userId <$> Legacy.LogData.rolesRemoved logData) ∧
  (entry.1 ∉ GraceUser.userId <$> Legacy.LogData.graceUsers logData) ∧
  (entry.1 ∉ Skipped.userId <$> Legacy.LogData.protectedSkipped logData).
Proof.
  unfold LegacyHandler.manageRolesOfMentions, Legacy.manageRoles.
  intros (members & tracking & Hrole & Hlook & Hadd & Hrem & Hgr & Hsk & ->)
    %legacy_run_inv Hentry Hf Hs.
  set (u := {| userId := entry.1; username := displayName m;
               mentionCount := entry.2; member := m |}).
  assert (u ∈ LegacyHandler.getActiveSpecialRoles guild entries) as Hu.
  { apply legacy_active_elem. split; [done|]. exists entry. split; [done|].
    unfold builtFor. by rewrite Hf. }
  assert (entry.1 ∈ Legacy.activeUsers
            (take LegacyHandler.TOP_COUNT
               (LegacyHandler.filterEligibleUsers guild entries))
            (LegacyHandler.getActiveSpecialRoles guild entries)) as Hactive.
  { unfold Legacy.activeUsers. rewrite elem_of_list_to_set, fmap_app, elem_of_app.
    right. by apply (list_elem_of_fmap_2' userId _ u). }
  pose proof (holderPass_untouched Legacy.PROTECTED_ROLES_IDS
                Legacy.GRACE_PERIOD_WEEKS "Not in top 30" (members_fetch guild)
                (λ _, true) _ ts entry.1 members (fresh tracking)
                (or_intror Hactive)) as Hv.
  unfold view in Hv. injection Hv as Hrec' Hrem' Hgr' Hsk'.
  rewrite Hrem, Hgr, Hsk. simpl in *.
  rewrite <-removedFor_nil_iff, <-graceFor_nil_iff, <-skippedFor_nil_iff.
  split; [by rewrite Hrec', Hlook, decide_True|].
  split; [|done].
  rewrite Hadd. intros Hin%elem_of_mentionOf_ids.
  apply list_elem_of_fmap in Hin as (v & Heq & [_ Hv]%list_elem_of_filter).
  apply legacy_top30_elem in Hv as (_ & Hns & _ & _ & _ & [_ Hfv]%builtFor_fetch).
  rewrite <-Heq, Hf in Hfv. injection Hfv as Hm. rewrite <-Hm in Hns. done.
Qed.

(** X15: in the legacy handler a holder of the role that is fetched with a
    protected role and no special role is logged as skipped, once, by every
    completed run over distinct holders, whether it is mentioned or not; it
    has no removal or grace entry and its record in the grace file, if any,
    stays as it is. *)
Theorem legacy_protected_holder_skipped
    guild entries ts graceFile logData graceFile' members u m :
  LegacyHandler.manageRolesOfMentions guild entries ts graceFile
    = Some (logData, graceFile') →
  roles_fetch_hierarch guild = Some members → NoDup members → u ∈ members →
  members_fetch guild u = Some m →
  roles_some m Legacy.PROTECTED_ROLES_IDS →
  ¬ roles_some m LegacyHandler.SPECIAL_ROLES_IDS →
  skippedFor u (Legacy.LogData.protectedSkipped logData)
    = [ {| Skipped.username := displayName m; Skipped.userId := u |} ] ∧
  removedFor u (Legacy.LogData.rolesRemoved logData) = [] ∧
  graceFor u (Legacy.LogData.graceUsers logData) = [] ∧
  graceFile' !! u = graceFile !! u.
Proof.
  unfold LegacyHandler.manageRolesOfMentions, Legacy.manageRoles.
  intros (members' & tracking & Hrole & Hlook & _ & Hrem & Hgr & Hsk & ->)
    %legacy_run_inv Hrole' Hnd Hu Hf Hp Hns.
  assert (members' = members) as -> by congruence.
  pose proof (legacy_not_active guild entries u m Hf Hns (or_introl Hp)) as Hna.
  pose proof (holderPass_view Legacy.PROTECTED_ROLES_IDS
                Legacy.GRACE_PERIOD_WEEKS "Not in top 30" (members_fetch guild)
                (λ _, true)
                (Legacy.activeUsers
                   (take LegacyHandler.TOP_COUNT
                      (LegacyHandler.filterEligibleUsers guild entries))
                   (LegacyHandler.getActiveSpecialRoles guild entries))
                ts u members (fresh tracking) Hnd Hu) as Hv.
  erewrite handleHolder_protected in Hv by done.
  unfold view in Hv. injection Hv as Hrec' Hrem' Hgr' Hsk'.
  rewrite Hrem, Hgr, Hsk. simpl in *.
  split; [done|]. split; [done|]. split; [done|].
  by rewrite Hrec', Hlook, decide_False.
Qed.

(** ** The grace of one holder, run by run *)

Section GraceSteps.
Variable HIERARCH_ROLE_ID : RoleId.
Variable PROTECTED_ROLES_IDS : list RoleId.

Local Abbreviation run := (manageRolesWith HIERARCH_ROLE_ID PROTECTED_ROLES_IDS).

(** X16: in a completed run with a grace period, what happens to a holder
    that is fetched, not protected and not qualified depends on its own
    record alone, whoever else holds the role.  Without record it gets one
    with counter 1 and a grace entry; with a record whose counter plus one
    is within the grace length the counter advances (name and first week
    kept) with a grace entry; beyond the grace length it is removed and the
    record deleted if the removal resolves, and otherwise the record stays
    with the counter advanced and nothing is logged. *)
Theorem disqualified_holder_step G guild q ts graceFile logData graceFile' u m :
  0 < G →
  run G guild q ts graceFile = Completed logData graceFile' →
  holder guild u → disqualified PROTECTED_ROLES_IDS guild q u m →
  (graceFile' !! u, removedFor u (LogData.rolesRemoved logData),
   graceFor u (LogData.graceUsers logData))
  = match graceFile !! u with
    | None =>
      (Some {| g_username := displayName m; weeksOut := 1; firstWeekOut := ts |},
       [],
       [ {| GraceUser.username := displayName m; GraceUser.userId := u;
            GraceUser.weeksOut := 1; GraceUser.weeksRemaining := G - 1 |} ])
    | Some r =>
      let advanced :=
        {| g_username := g_username r; weeksOut := weeksOut r + 1;
           firstWeekOut := firstWeekOut r |} in
      if decide (weeksOut r + 1 ≤ G) then
        (Some advanced, [],
         [ {| GraceUser.username := displayName m; GraceUser.userId := u;
              GraceUser.weeksOut := weeksOut r + 1;
              GraceUser.weeksRemaining := G - (weeksOut r + 1) |} ])
      else if roles_remove guild u then
        (None,
         [ {| Removed.username := displayName m; Removed.userId := u;
              Removed.reason := "Grace period expired";
              Removed.weeksOut := Some (weeksOut r + 1) |} ],
         [])
      else (Some advanced, [], [])
    end.
Proof.
  intros HG Hrun Hh Hd.
  pose proof (run_view_disqualified _ _ _ _ _ _ _ _ _ _ _ Hrun Hh Hd) as Hv.
  destruct Hd as (Hf & Hnp & Hnq). unfold runView in Hv.
  destruct (graceFile !! u) as [r|] eqn:Hrec.
  - destruct (decide (weeksOut r + 1 ≤ G)) as [Hle|Hgt].
    + erewrite handleHolder_continued in Hv by done.
      by injection Hv as -> -> -> _.
    + destruct (roles_remove guild u) eqn:Hrm.
      * erewrite handleHolder_expired in Hv by (done || lia).
        by injection Hv as -> -> -> _.
      * erewrite handleHolder_stuck in Hv by (done || lia).
        by injection Hv as -> -> -> _.
  - erewrite handleHolder_started in Hv by done.
    by injection Hv as -> -> -> _.
Qed.

(** X17: qualifying resets the grace: whatever record a user had, after a
    completed run in which it qualifies and a following completed run in
    which it is a disqualified holder, its record has counter 1 and the
    time of the second run as first week. *)
Theorem requalifying_resets_grace
    G g1 g2 q1 q2 t1 t2 s0 l1 s1 l2 s2 u m :
  0 < G →
  run G g1 q1 t1 s0 = Completed l1 s1 → u ∈ qualifiedUserIds q1 →
  run G g2 q2 t2 s1 = Completed l2 s2 →
  holder g2 u → disqualified PROTECTED_ROLES_IDS g2 q2 u m →
  s1 !! u = None ∧
  s2 !! u = Some {| g_username := displayName m; weeksOut := 1;
                    firstWeekOut := t2 |} ∧
  graceFor u (LogData.graceUsers l2) =
    [ {| GraceUser.username := displayName m; GraceUser.userId := u;
         GraceUser.weeksOut := 1; GraceUser.weeksRemaining := G - 1 |} ].
Proof.
  intros HG Hr1 Hq1 Hr2 Hh Hd.
  destruct (run_Completed_inv _ _ _ _ _ _ _ _ _ Hr1) as (members & _ & Hrole & _).
  pose proof (run_view_other _ _ _ _ _ _ _ _ _ _ u Hr1 Hrole (or_intror Hq1)) as Hv1.
  rewrite decide_True in Hv1 by done. injection Hv1 as Hs1 _ _ _.
  pose proof (run_view_disqualified _ _ _ _ _ _ _ _ _ _ _ Hr2 Hh Hd) as Hv2.
  destruct Hd as (Hf & Hnp & Hnq).
  erewrite handleHolder_started in Hv2 by done.
  injection Hv2 as Hs2 _ Hgr _. done.
Qed.
End GraceSteps.

(** ** More worked runs *)

(** In the sample channels user 1 is counted three times: the message on the
    third page of the first channel, behind a page that ends too old, is not
    read. *)
Lemma scan_tallies_fresh_mentions_witness :
  NoDup (scanChannelsForMentions Trial.channels).*1.
Proof. apply (scan_tallies_fresh_mentions Trial.channels). Defined.

Lemma scan_counts_every_fresh_message_witness :
  ("1", 2) ∈ scanChannelsForMentions Trial.freshChannels.
Proof.
  apply (scan_counts_every_fresh_message Trial.freshChannels "1" 2).
  - unfold allFresh. simpl. repeat constructor; done.
  - split; [reflexivity|lia].
Defined.

Lemma handler_qualified_distinct_witness :
  NoDup (userId <$>
           allQualified
             (determineQualified
                (regularMembers (categorizeMembers Sample.MEMBER Sample.PROTECTED
                                   Sample.SPECIAL Sample.steady Trial.mentions))
                (specialMembers (categorizeMembers Sample.MEMBER Sample.PROTECTED
                                   Sample.SPECIAL Sample.steady Trial.mentions))
                (protectedMembers (categorizeMembers Sample.MEMBER Sample.PROTECTED
                                     Sample.SPECIAL Sample.steady Trial.mentions)))).
Proof.
  apply (handler_qualified_distinct Sample.MEMBER Sample.PROTECTED Sample.SPECIAL
           Sample.steady Trial.mentions).
  compute_done.
Defined.

Lemma qualification_cut_witness :
  length (top30Regular
            (determineQualified
               [Sample.regular "1" 50; Sample.regular "2" 40; Sample.regular "3" 40]
               [] []))
  = min TOP_COUNT 3.
Proof.
  apply (qualification_cut
           [Sample.regular "1" 50; Sample.regular "2" 40; Sample.regular "3" 40]
           [] []).
  unfold descending. repeat constructor; simpl; lia.
Defined.

Lemma rejected_add_fails_the_run_witness :
  exitCode (ready Sample.HIERARCH Sample.MEMBER Sample.PROTECTED Sample.SPECIAL
              Trial.closed Sample.mentions "t1" (Sample.file "t0" 1)) = 1.
Proof.
  apply (rejected_add_fails_the_run Sample.HIERARCH Sample.MEMBER Sample.PROTECTED
           Sample.SPECIAL Trial.closed Sample.mentions "t1" (Sample.file "t0" 1)
           (Sample.regular "1" 5)).
  - simpl. eexists. reflexivity.
  - vm_compute. left.
  - compute_done.
  - reflexivity.
Defined.

Lemma run_leaves_others_alone_witness :
  <["5" := Trial.stale]> (Sample.file "t1" 1) !! "5"
  = (<["5" := Trial.stale]> ∅ : gmap string GraceRecord) !! "5".
Proof.
  apply (run_leaves_others_alone Sample.HIERARCH Sample.PROTECTED GRACE_PERIOD_WEEKS
           Sample.steady Sample.qv "t1" (<["5" := Trial.stale]> ∅)
           (Sample.logWith "t1" [] [] [Sample.graceEntry 1 1])
           (<["5" := Trial.stale]> (Sample.file "t1" 1)) ["1"; "7"; "8"] "5").
  - vm_compute. reflexivity.
  - reflexivity.
  - compute_done.
  - compute_done.
  - left. compute_done.
Defined.

Lemma no_grace_period_removes_at_once_witness :
  removedFor "7" (LogData.rolesRemoved (Sample.logWith "t1" [] [Trial.dismissal] []))
  = [Trial.dismissal].
Proof.
  apply (no_grace_period_removes_at_once Sample.HIERARCH Sample.PROTECTED
           Sample.steady Sample.qv "t1" (Sample.file "t0" 1)
           (Sample.logWith "t1" [] [Trial.dismissal] []) (Sample.file "t0" 1)
           "7" Sample.quiet).
  - vm_compute. reflexivity.
  - exact sample_holder_quiet.
  - exact sample_disqualified_quiet.
Defined.

Lemma log_agrees_with_grace_file_witness :
  ∃ r, Sample.file "t1" 2 !! GraceUser.userId (Sample.graceEntry 2 0) = Some r ∧
       weeksOut r = GraceUser.weeksOut (Sample.graceEntry 2 0).
Proof.
  destruct (log_agrees_with_grace_file Sample.HIERARCH Sample.PROTECTED
              GRACE_PERIOD_WEEKS Sample.steady Sample.qv "t2" (Sample.file "t1" 1)
              (Sample.logWith "t2" [] [] [Sample.graceEntry 2 0])
              (Sample.file "t1" 2) ["1"; "7"; "8"]) as [Hgrace _].
  - unfold GRACE_PERIOD_WEEKS. lia.
  - vm_compute. reflexivity.
  - reflexivity.
  - compute_done.
  - apply (Hgrace (Sample.graceEntry 2 0)). simpl. left.
Defined.

Lemma sample_quiet_run ts : quietFor Sample.PROTECTED "7" (Sample.theRun ts Sample.steady).
Proof.
  split; [exact sample_holder_quiet|].
  exists Sample.quiet. exact sample_disqualified_quiet.
Defined.

Lemma grace_lasts_G_runs_witness :
  (manageRolesSeq Sample.HIERARCH Sample.PROTECTED GRACE_PERIOD_WEEKS
     ([Sample.theRun "t1" Sample.steady; Sample.theRun "t2" Sample.steady] ++
      [Sample.theRun "t3" Sample.steady]) ∅).2 !! "7" = None.
Proof.
  destruct (grace_lasts_G_runs Sample.HIERARCH Sample.PROTECTED GRACE_PERIOD_WEEKS
              [Sample.theRun "t1" Sample.steady; Sample.theRun "t2" Sample.steady]
              (Sample.theRun "t3" Sample.steady) ∅ "7")
    as (outcomes & logData & entry & _ & _ & _ & _ & _ & _ & Hnone).
  - unfold GRACE_PERIOD_WEEKS. lia.
  - reflexivity.
  - reflexivity.
  - simpl. repeat (apply Forall_cons; split; [apply sample_quiet_run|]).
    apply Forall_nil_2.
  - vm_compute. repeat constructor.
  - reflexivity.
  - exact Hnone.
Defined.

Lemma total_counts_each_user_once_witness :
  totalWithHierarch Trial.lordLog
  = size (list_to_set (countedIds Trial.lordLog) : gset string).
Proof.
  apply (total_counts_each_user_once Sample.HIERARCH Sample.PROTECTED
           GRACE_PERIOD_WEEKS Sample.steady
           (determineQualified
              (regularMembers (categorizeMembers Sample.MEMBER Sample.PROTECTED
                                 Sample.SPECIAL Sample.steady Trial.mentions))
              (specialMembers (categorizeMembers Sample.MEMBER Sample.PROTECTED
                                 Sample.SPECIAL Sample.steady Trial.mentions))
              (protectedMembers (categorizeMembers Sample.MEMBER Sample.PROTECTED
                                   Sample.SPECIAL Sample.steady Trial.mentions)))
           "t1" ∅ Trial.lordLog (Sample.file "t1" 1)).
  - vm_compute. reflexivity.
  - unfold holdersDistinct. simpl. compute_done.
  - compute_done.
Defined.

Lemma mentioned_protected_member_qualifies_witness :
  Sample.file "t1" 1 !! ("8", 1).1 = None.
Proof.
  apply (mentioned_protected_member_qualifies Sample.HIERARCH Sample.MEMBER
           Sample.PROTECTED Sample.SPECIAL GRACE_PERIOD_WEEKS Sample.steady
           Trial.mentions "t1" ∅ Trial.lordLog (Sample.file "t1" 1) ("8", 1)
           Sample.lord).
  - vm_compute. reflexivity.
  - compute_done.
  - reflexivity.
  - compute_done.
  - compute_done.
Defined.

Lemma legacy_special_member_kept_witness :
  Sample.file "t0" 1 !! ("2", 1).1 = None.
Proof.
  apply (legacy_special_member_kept Trial.keep Trial.legacyMentions "t1"
           (Sample.file "t0" 1) Trial.legacyLog (Sample.file "t0" 1) ("2", 1)
           Trial.chieftain).
  - vm_compute. reflexivity.
  - compute_done.
  - reflexivity.
  - compute_done.
Defined.

Lemma legacy_protected_holder_skipped_witness :
  skippedFor "8" (Legacy.LogData.protectedSkipped Trial.legacyLog)
  = [ {| Skipped.username := displayName Trial.highlord; Skipped.userId := "8" |} ].
Proof.
  apply (legacy_protected_holder_skipped Trial.keep Trial.legacyMentions "t1"
           (Sample.file "t0" 1) Trial.legacyLog (Sample.file "t0" 1) ["2"; "8"]
           "8" Trial.highlord).
  - vm_compute. reflexivity.
  - reflexivity.
  - compute_done.
  - compute_done.
  - reflexivity.
  - compute_done.
  - compute_done.
Defined.

Lemma disqualified_holder_step_witness :
  (Sample.file "t1" 2 !! "7",
   removedFor "7" (LogData.rolesRemoved
                     (Sample.logWith "t2" [] [] [Sample.graceEntry 2 0])),
   graceFor "7" (LogData.graceUsers
                   (Sample.logWith "t2" [] [] [Sample.graceEntry 2 0])))
  = (Some {| g_username := "Quiet"; weeksOut := 2; firstWeekOut := "t1" |}, [],
     [Sample.graceEntry 2 0]).
Proof.
  rewrite (disqualified_holder_step Sample.HIERARCH Sample.PROTECTED
             GRACE_PERIOD_WEEKS Sample.steady Sample.qv "t2" (Sample.file "t1" 1)
             (Sample.logWith "t2" [] [] [Sample.graceEntry 2 0])
             (Sample.file "t1" 2) "7" Sample.quiet).
  - reflexivity.
  - unfold GRACE_PERIOD_WEEKS. lia.
  - vm_compute. reflexivity.
  - exact sample_holder_quiet.
  - exact sample_disqualified_quiet.
Defined.

Lemma requalifying_resets_grace_witness :
  Sample.file "t1" 1 !! "1" = None ∧
  Trial.lapseFile !! "1"
  = Some {| g_username := "user1"; weeksOut := 1; firstWeekOut := "t2" |}.
Proof.
  destruct (requalifying_resets_grace Sample.HIERARCH Sample.PROTECTED
              GRACE_PERIOD_WEEKS Sample.steady Sample.steady Sample.qv Trial.nobody
              "t1" "t2" (<["1" := Trial.stale]> ∅)
              (Sample.logWith "t1" [] [] [Sample.graceEntry 1 1])
              (Sample.file "t1" 1) Trial.lapseLog Trial.lapseFile "1"
              (member (Sample.veteran "1" 5)))
    as (Hnone & Hrecord & _).
  - unfold GRACE_PERIOD_WEEKS. lia.
  - vm_compute. reflexivity.
  - compute_done.
  - vm_compute. reflexivity.
  - unfold holder. simpl. split; compute_done.
  - repeat split; compute_done.
  - split; [exact Hnone|exact Hrecord].
Defined.

Lemma categorizeMembers_tiers_witness :
  {| userId := "8"; username := "lord8"; mentionCount := 1; member := Sample.lord |}
  ∈ protectedMembers (categorizeMembers Sample.MEMBER Sample.PROTECTED
                        Sample.SPECIAL Sample.steady Trial.mentions).
Proof.
  apply (categorizeMembers_tiers Sample.MEMBER Sample.PROTECTED Sample.SPECIAL
           Sample.steady Trial.mentions).
  split; [|compute_done].
  exists ("8", 1). split; [compute_done|reflexivity].
Defined.

Lemma legacy_handler_inputs_witness :
  userId {| userId := "1"; username := "user1"; mentionCount := 5;
            member := Trial.recruit |}
  ≠ userId {| userId := "2"; username := "Chief"; mentionCount := 1;
              member := Trial.chieftain |}.
Proof.
  apply (legacy_handler_inputs Trial.keep Trial.legacyMentions).
  - vm_compute. left.
  - vm_compute. left.
Defined.

(** ** From the channels to the role changes *)

Lemma scan_entry_mentioned channels u c :
  (u, c) ∈ scanChannelsForMentions channels →
  ∃ message, message ∈ freshMessages channels ∧ u ∈ mentions message.
Proof.
  unfold scanChannelsForMentions.
  destruct (scanChannels_tally channels []) as (counted & Hsub & ->).
  intros Hin.
  assert (u ∈ (foldl (λ acc id, bump id acc) [] (concat (mentions <$> counted))).*1)
    as Hkey by (by apply (list_elem_of_fmap_2' fst _ (u, c))).
  apply tally_keys in Hkey as [Hnil|Hu]; [by apply elem_of_nil in Hnil|].
  apply list_elem_of_In, in_concat in Hu as (ids & Hids & Hu).
  apply list_elem_of_In, list_elem_of_fmap in Hids as (message & -> & Hm).
  exists message. split; [by eapply sublist_subseteq|]. by apply list_elem_of_In.
Qed.

Lemma grantPass_added_from H guild users tracking added :
  ∀ g, g ∈ match grantPass H guild users tracking added with
           | inl (_, added') => added'
           | inr added' => added'
           end →
       g ∈ added ∨
       ∃ v, v ∈ users ∧ ¬ roles_has (member v) H ∧ g = mentionOf v.
Proof.
  revert tracking added. induction users as [|v users IH]; intros tracking added g.
  - simpl. by left.
  - simpl. destruct (decide (roles_has (member v) H)) as [Hhas|Hnot].
    + intros [?|(w & ? & ?)]%IH; [by left|right]. exists w. split; [by right|done].
    + destruct (roles_add guild (userId v)); [|by left].
      intros [[?|Hg%list_elem_of_singleton]%elem_of_app|(w & ? & ?)]%IH.
      * by left.
      * right. exists v. split; [by left|done].
      * right. exists w. split; [by right|done].
Qed.

Lemma holderPass_removed_from P G reason fetch removeRole qualified ts members st e :
  e ∈ rolesRemoved (holderPass P G reason fetch removeRole qualified ts members st) →
  e ∈ rolesRemoved st ∨
  (Removed.userId e ∈ members ∧ (Removed.userId e ∉ qualified) ∧
   removeRole (Removed.userId e) = true ∧
   ∃ m, fetch (Removed.userId e) = Some m ∧ ¬ roles_some m P).
Proof.
  revert st. induction members as [|v members IH]; intros st; [by left|].
  rewrite holderPass_cons. intros [He|(Hin & ?)]%IH.
  - clear IH. unfold handleHolder in He.
    destruct (decide (v ∈ qualified)) as [|Hnq]; [by left|].
    destruct (fetch v) as [m|] eqn:Hf; [|by left].
    destruct (decide (roles_some m P)) as [|Hnp]; [by left|].
    assert (∀ e', e ∈ rolesRemoved st ++ [e'] → Removed.userId e' = v →
                  removeRole v = true →
                  e ∈ rolesRemoved st ∨
                  (Removed.userId e ∈ v :: members ∧ (Removed.userId e ∉ qualified) ∧
                   removeRole (Removed.userId e) = true ∧
                   ∃ m, fetch (Removed.userId e) = Some m ∧ ¬ roles_some m P))
      as Hpush.
    { intros e' [?|He'%list_elem_of_singleton]%elem_of_app <- Hrm; [by left|].
      subst e'. right. split; [by left|]. split; [done|]. split; [done|]. by exists m. }
    destruct (decide (0 < G)).
    + destruct (graceTracking st !! v) as [r|]; [|by left].
      destruct (decide (G < weeksOut r + 1)); [|by left].
      destruct (removeRole v) eqn:Hrm; [|by left].
      by eapply Hpush.
    + destruct (removeRole v) eqn:Hrm; [|by left]. by eapply Hpush.
  - right. split; [by right|done].
Qed.

Section EndToEnd.
Variables HIERARCH_ROLE_ID MEMBER_ROLE_ID : RoleId.
Variables PROTECTED_ROLES_IDS SPECIAL_ROLES_IDS : list RoleId.

Local Abbreviation handler :=
  (ready HIERARCH_ROLE_ID MEMBER_ROLE_ID PROTECTED_ROLES_IDS SPECIAL_ROLES_IDS).
Local Abbreviation categorizedOf guild channels :=
  (categorizeMembers MEMBER_ROLE_ID PROTECTED_ROLES_IDS SPECIAL_ROLES_IDS guild
     (scanChannelsForMentions channels)).
Local Abbreviation qualifiedOf guild channels :=
  (determineQualified (regularMembers (categorizedOf guild channels))
     (specialMembers (categorizedOf guild channels))
     (protectedMembers (categorizedOf guild channels))).

Lemma handler_qualified_mentioned guild channels v :
  v ∈ allQualified (qualifiedOf guild channels) →
  members_fetch guild (userId v) = Some (member v) ∧
  roles_has (member v) MEMBER_ROLE_ID ∧
  ∃ message, message ∈ freshMessages channels ∧ userId v ∈ mentions message.
Proof.
  unfold allQualified, determineQualified. cbn [top30Regular qualifiedSpecial
    qualifiedProtected].
  destruct (categorizeMembers_lists MEMBER_ROLE_ID PROTECTED_ROLES_IDS
              SPECIAL_ROLES_IDS guild (scanChannelsForMentions channels))
    as (-> & -> & ->).
  intros Hv.
  assert (v ∈ omap (userDataOf MEMBER_ROLE_ID guild)
                (scanChannelsForMentions channels)) as Hbuilt.
  { rewrite !elem_of_app in Hv. destruct Hv as [Hv|[Hv|Hv]].
    - apply (subseteq_take _ _) in Hv. rewrite elem_of_sort_desc in Hv.
      by apply list_elem_of_filter in Hv as [_ ?].
    - apply list_elem_of_filter in Hv as [_ Hv]. rewrite elem_of_sort_desc in Hv.
      by apply list_elem_of_filter in Hv as [_ ?].
    - by apply list_elem_of_filter in Hv as [_ ?]. }
  apply list_elem_of_omap in Hbuilt
    as ([id c] & Hentry & [[Hid Hf]%builtFor_fetch Hm]%userDataOf_builtFor).
  split; [done|]. split; [done|]. simpl in Hid. rewrite Hid.
  by eapply scan_entry_mentioned.
Qed.

(** X18: whatever the handler does to the roles is justified by what it
    read.  It grants the role only to a user that is mentioned in a message
    of a found channel that was not too old, is fetched with the Member role
    and has not the role yet; it revokes the role only from a holder that is
    fetched without protected role, is not among the qualified users, and
    whose removal resolved. *)
Theorem handler_changes_are_justified guild channels ts graceFile change :
  change ∈ roleChanges (handler guild (scanChannelsForMentions channels)
                          ts graceFile) →
  match change with
  | Grant u =>
    ∃ m message,
      members_fetch guild u = Some m ∧ roles_has m MEMBER_ROLE_ID ∧
      ¬ roles_has m HIERARCH_ROLE_ID ∧
      message ∈ freshMessages channels ∧ u ∈ mentions message
  | Revoke u =>
    ∃ members m,
      roles_fetch_hierarch guild = Some members ∧ u ∈ members ∧
      members_fetch guild u = Some m ∧ ¬ roles_some m PROTECTED_ROLES_IDS ∧
      roles_remove guild u = true ∧
      u ∉ userId <$> allQualified (qualifiedOf guild channels)
  end.
Proof.
  unfold ready, manageRoles, manageRolesWith.
  set (q := determineQualified _ _ _).
  assert (∀ g, (g ∈ [] ∨ ∃ v, v ∈ allQualified q ∧
                              ¬ roles_has (member v) HIERARCH_ROLE_ID ∧
                              g = mentionOf v) →
               ∃ m message,
                 members_fetch guild (Mention.userId g) = Some m ∧
                 roles_has m MEMBER_ROLE_ID ∧ ¬ roles_has m HIERARCH_ROLE_ID ∧
                 message ∈ freshMessages channels ∧
                 Mention.userId g ∈ mentions message) as Hgrant.
  { intros g [Hnil|(v & Hv & Hlacks & ->)]; [by apply elem_of_nil in Hnil|].
    apply handler_qualified_mentioned in Hv as (Hf & Hm & message & ? & ?).
    exists (member v), message. done. }
  destruct (roles_fetch_hierarch guild) as [members|] eqn:Hrole.
  2: { simpl. intros Hin. by apply elem_of_nil in Hin. }
  pose proof (grantPass_added_from HIERARCH_ROLE_ID guild (allQualified q)
                graceFile []) as Hadded.
  destruct (grantPass _ _ _ _ _) as [[tracking added]|added]; simpl.
  - intros [(g & -> & (e & -> & He)%list_elem_of_fmap)%list_elem_of_fmap
           |(g & -> & (e & -> & He)%list_elem_of_fmap)%list_elem_of_fmap]%elem_of_app.
    + by apply Hgrant, Hadded.
    + apply holderPass_removed_from in He
        as [Hnil|(Hin & Hnq & Hrm & m & Hf & Hnp)]; [by apply elem_of_nil in Hnil|].
      exists members, m. split; [done|]. split; [done|]. split; [done|].
      split; [done|]. split; [done|].
      intros Hq. apply Hnq. unfold qualifiedUserIds. by apply elem_of_list_to_set.
  - intros (g & -> & (e & -> & He)%list_elem_of_fmap)%list_elem_of_fmap.
    by apply Hgrant, Hadded.
Qed.
End EndToEnd.

Lemma handler_changes_are_justified_witness :
  ∃ m message,
    members_fetch Sample.calm "1" = Some m ∧ roles_has m Sample.MEMBER ∧
    ¬ roles_has m Sample.HIERARCH ∧
    message ∈ freshMessages Trial.channels ∧ "1" ∈ mentions message.
Proof.
  apply (handler_changes_are_justified Sample.HIERARCH Sample.MEMBER
           Sample.PROTECTED Sample.SPECIAL Sample.calm Trial.channels "t1" ∅
           (Grant "1")).
  vm_compute. left.
Defined.
